(** * decomp-permuter, [import.py]: build-command recovery, assembly
      extraction and macro-preserving preprocessing

    A shallow embedding of the functions of [import.py] and the
    properties of its specification.  Python values are modelled as
    follows: [str] is [string] (characters are code points below 256),
    a list of tokens is [list string], a [set] of names is
    [gset string], and the [defaultdict(list)] call graph is the list
    of its edges in insertion order.  A function that can leave through
    [sys.exit] or through an uncaught exception returns an [outcome].
    The functions that write, [create_directory] and [main] among them,
    are functions on a [world]: the tree below the working directory
    and the lines printed on standard output. *)

From stdpp Require Import base option list strings gmap.
From Stdlib Require Import Ascii Lia DecimalString DecimalNat.

Local Open Scope stdpp_scope.

(** ** Outcomes of a run *)

(** Exceptions that the code lets escape. *)
Inductive exn : Type :=
  | ValueError
  | IndexError
  | TypeError
  | CalledProcessError (cmd : list string).

(** [Ret v]: the function returns [v].  [Exit msg]: [msg] is printed on
    standard error and [sys.exit(1)] is called.  [Raise e]: exception [e]
    propagates to the top level.  [OutOfFuel]: a [while] loop of the model
    used up its step budget; the budgets below are shown to suffice, so
    that no function of this file ever yields it. *)
Inductive outcome (A : Type) : Type :=
  | Ret (v : A)
  | Exit (msg : string)
  | Raise (e : exn)
  | OutOfFuel.
Arguments Ret {A} v.
Arguments Exit {A} msg.
Arguments Raise {A} e.
Arguments OutOfFuel {A}.

Definition bind {A B} (m : outcome A) (k : A → outcome B) : outcome B :=
  match m with
  | Ret v => k v
  | Exit msg => Exit msg
  | Raise e => Raise e
  | OutOfFuel => OutOfFuel
  end.

Notation "'let*' x := m 'in' k" := (bind m (fun x => k))
  (at level 10, x pattern, m at level 100, k at level 200).

(** ** Python string and list primitives *)

Module Py.

(** [s.startswith(p)] *)
Fixpoint startswith (s p : string) : bool :=
  match p, s with
  | EmptyString, _ => true
  | String _ _, EmptyString => false
  | String a p', String b s' => bool_decide (a = b) && startswith s' p'
  end.

(** [sub in s] on strings *)
Fixpoint contains (sub s : string) : bool :=
  startswith s sub ||
  match s with
  | EmptyString => false
  | String _ s' => contains sub s'
  end.

(** [x in l] on lists *)
Definition mem (x : string) (l : list string) : bool := bool_decide (x ∈ l).

Definition mem_nat (n : nat) (l : list nat) : bool := bool_decide (n ∈ l).

(** [l.index(x, start)]: [None] stands for ValueError. *)
Definition index (l : list string) (x : string) (start : nat) : option nat :=
  (λ p, start + p.1) <$> list_find (λ y, y = x) (drop start l).

(** [l[i:j]] for [0 <= i], [0 <= j] *)
Definition slice {A} (l : list A) (i j : nat) : list A := take (j - i) (drop i l).

(** [min(i for i, x in enumerate(l) if P x)]: [None] stands for the
    ValueError of [min] on an empty sequence. *)
Definition first_index (P : string → bool) (l : list string) : option nat :=
  fst <$> list_find (λ y, P y = true) l.

(** Characters for which [str.isspace] holds, among code points below 256. *)
Definition is_space (c : ascii) : bool :=
  mem_nat (nat_of_ascii c) [9; 10; 11; 12; 13; 28; 29; 30; 31; 32; 133; 160].

Fixpoint lstrip (s : string) : string :=
  match s with
  | EmptyString => EmptyString
  | String c s' => if is_space c then lstrip s' else s
  end.

Fixpoint rstrip (s : string) : string :=
  match s with
  | EmptyString => EmptyString
  | String c s' =>
      let r := rstrip s' in
      if is_space c && bool_decide (r = EmptyString) then EmptyString else String c r
  end.

(** [s.strip()] *)
Definition strip (s : string) : string := rstrip (lstrip s).

(** [s.split()]: the maximal runs of non-blank characters. *)
Fixpoint split_ws (s : string) : list string :=
  match s with
  | EmptyString => []
  | String c s' =>
      if is_space c then split_ws s'
      else
        match s' with
        | EmptyString => [String c EmptyString]
        | String d _ =>
            if is_space d then String c EmptyString :: split_ws s'
            else
              match split_ws s' with
              | w :: ws => String c w :: ws
              | [] => [String c EmptyString]
              end
        end
  end.

(** [s.split(sep)] for a one-character separator *)
Fixpoint split (sep : ascii) (s : string) : list string :=
  match s with
  | EmptyString => [EmptyString]
  | String c s' =>
      if bool_decide (c = sep) then EmptyString :: split sep s'
      else
        match split sep s' with
        | w :: ws => String c w :: ws
        | [] => [String c EmptyString]
        end
  end.

(** [s.split(sep, 1)]: [None] when [sep] does not occur, so that the
    result has one element only. *)
Fixpoint split_once (sep : ascii) (s : string) : option (string * string) :=
  match s with
  | EmptyString => None
  | String c s' =>
      if bool_decide (c = sep) then Some (EmptyString, s')
      else prod_map (String c) id <$> split_once sep s'
  end.

(** [sep.join(l)] *)
Fixpoint join (sep : string) (l : list string) : string :=
  match l with
  | [] => EmptyString
  | [x] => x
  | x :: l' => x +:+ sep +:+ join sep l'
  end.

(** [s.replace(old, new)] for a non-empty [old]: [skip] counts the
    characters of a match that are still to be passed over. *)
Fixpoint replace_go (old new : string) (skip : nat) (s : string) : string :=
  match s with
  | EmptyString => EmptyString
  | String c s' =>
      match skip with
      | S k => replace_go old new k s'
      | O =>
          if startswith s old
          then new +:+ replace_go old new (String.length old - 1) s'
          else String c (replace_go old new 0 s')
      end
  end.
Definition replace (old new s : string) : string := replace_go old new 0 s.

(** Line boundaries of [str.splitlines], among code points below 256. *)
Definition is_linebreak (c : ascii) : bool :=
  mem_nat (nat_of_ascii c) [10; 11; 12; 13; 28; 29; 30; 133].

(** [s.splitlines()]; a carriage return followed by a line feed is one
    boundary. *)
Fixpoint splitlines (s : string) : list string :=
  match s with
  | EmptyString => []
  | String c s' =>
      if is_linebreak c then
        match c, s' with
        | "013"%char, String "010"%char s'' => EmptyString :: splitlines s''
        | _, _ => EmptyString :: splitlines s'
        end
      else
        match splitlines s' with
        | w :: ws => String c w :: ws
        | [] => [String c EmptyString]
        end
  end.

(** The class [[a-zA-Z0-9_]] of the regular expressions. *)
Definition is_ident (c : ascii) : bool :=
  let n := nat_of_ascii c in
  (48 <=? n) && (n <=? 57) || (65 <=? n) && (n <=? 90)
  || (97 <=? n) && (n <=? 122) || bool_decide (n = 95).

(** [s[n:]] *)
Fixpoint skip (n : nat) (s : string) : string :=
  match n, s with
  | S n', String _ s' => skip n' s'
  | _, _ => s
  end.

(** The longest prefix of identifier characters, and what follows it. *)
Fixpoint span_ident (s : string) : string * string :=
  match s with
  | EmptyString => (EmptyString, EmptyString)
  | String c s' =>
      if is_ident c then prod_map (String c) id (span_ident s') else (EmptyString, s)
  end.

End Py.

(** ** Constants *)

Definition DEFAULT_AS_CMDLINE : list string :=
  ["mips-linux-gnu-as"; "-march=vr4300"; "-mabi=32"].

Definition CPP : list string := ["cpp"; "-P"; "-undef"].

Definition STUB_FN_MACROS : list string :=
  ["-D_Static_assert(x, y)="; "-D__attribute__(x)="; "-DGLOBAL_ASM(...)="].

(** ** [fixup_build_command] *)

(** The first loop: drop [-MF x], [-o x] and every [ignore_part]. *)
Fixpoint strip_parts (ignore_part : string) (skip_count : nat)
    (parts : list string) : list string :=
  match parts with
  | [] => []
  | part :: parts' =>
      match skip_count with
      | S n => strip_parts ignore_part n parts'
      | O =>
          if Py.mem part ["-MF"; "-o"] then strip_parts ignore_part 1 parts'
          else if bool_decide (part = ignore_part) then strip_parts ignore_part 0 parts'
          else part :: strip_parts ignore_part 0 parts'
      end
  end.

(** [any(cmd in arg for cmd in [...])] *)
Definition references_wrapper (arg : string) : bool :=
  existsb (λ cmd, Py.contains cmd arg)
    ["asm_processor"; "asm-processor"; "preprocess.py"].

(** The body of the [try]: [None] when a ValueError is raised. *)
Definition unwrap_asm_processor (res : list string)
    : option (list string * list string) :=
  ind0 ← Py.first_index references_wrapper res;
  ind1 ← Py.index res "--" (ind0 + 1);
  ind2 ← Py.index res "--" (ind1 + 1);
  Some (Py.slice res (ind0 + 1) ind1 ++ drop (ind2 + 1) res,
        Py.slice res (ind1 + 1) ind2).

Definition fixup_build_command (parts : list string) (ignore_part : string)
    : list string * option (list string) :=
  let res := strip_parts ignore_part 0 parts in
  match unwrap_asm_processor res with
  | Some (res', assembler) => (res', Some assembler)
  | None => (res, None)
  end.

(** ** [os.path] on POSIX *)

Module PosixPath.

Definition isabs (p : string) : bool := Py.startswith p "/".

(** [s.endswith("/")] *)
Fixpoint endswith_sep (s : string) : bool :=
  match s with
  | EmptyString => false
  | String c EmptyString => bool_decide (c = "/"%char)
  | String _ s' => endswith_sep s'
  end.

(** [os.path.join(a, b)] *)
Definition join (a b : string) : string :=
  if Py.startswith b "/" then b
  else if bool_decide (a = "") || endswith_sep a then a +:+ b
  else a +:+ "/" +:+ b.

(** [p[:p.rfind("/") + 1]] *)
Fixpoint upto_last_sep (p : string) : string :=
  match p with
  | EmptyString => EmptyString
  | String c p' => if Py.contains "/" p then String c (upto_last_sep p') else EmptyString
  end.

(** [s == "/" * len(s)] *)
Fixpoint all_sep (s : string) : bool :=
  match s with
  | EmptyString => true
  | String c s' => bool_decide (c = "/"%char) && all_sep s'
  end.

(** [s.rstrip("/")] *)
Fixpoint rstrip_sep (s : string) : string :=
  match s with
  | EmptyString => EmptyString
  | String c s' =>
      let r := rstrip_sep s' in
      if bool_decide (c = "/"%char) && bool_decide (r = "") then "" else String c r
  end.

(** [os.path.dirname(p)] *)
Definition dirname (p : string) : string :=
  let head := upto_last_sep p in
  if negb (bool_decide (head = "")) && negb (all_sep head)
  then rstrip_sep head else head.

(** One round of the component loop of [normpath]. *)
Definition normpath_step (initial_slashes : nat) (new_comps : list string)
    (comp : string) : list string :=
  if Py.mem comp [""; "."] then new_comps
  else if negb (bool_decide (comp = ".."))
          || (bool_decide (initial_slashes = 0) && bool_decide (new_comps = []))
          || bool_decide (last new_comps = Some "..")
  then new_comps ++ [comp]
  else removelast new_comps.

(** [os.path.normpath(path)] *)
Definition normpath (path : string) : string :=
  if bool_decide (path = "") then "."
  else
    let initial_slashes :=
      if Py.startswith path "/" then
        if Py.startswith path "//" && negb (Py.startswith path "///") then 2 else 1
      else 0 in
    let comps := foldl (normpath_step initial_slashes) [] (Py.split "/" path) in
    let path' := Py.join "/" comps in
    let path' := Py.join "" (replicate initial_slashes "/") +:+ path' in
    if bool_decide (path' = "") then "." else path'.

(** [os.path.abspath(path)], with [cwd] the result of [os.getcwd()] *)
Definition abspath (cwd path : string) : string :=
  normpath (if isabs path then path else join cwd path).

(** [len(os.path.commonprefix([l1, l2]))] on two lists of components *)
Fixpoint common_len (l1 l2 : list string) : nat :=
  match l1, l2 with
  | x :: l1', y :: l2' => if bool_decide (x = y) then S (common_len l1' l2') else 0
  | _, _ => 0
  end.

(** [os.path.relpath(path, start)]: [None] stands for the ValueError
    raised for an empty [path]. *)
Definition relpath (cwd path start : string) : option string :=
  if bool_decide (path = "") then None
  else
    let comps p := filter (λ x, x ≠ "") (Py.split "/" (abspath cwd p)) in
    let start_list := comps start in
    let path_list := comps path in
    let i := common_len start_list path_list in
    let rel_list := replicate (length start_list - i) ".." ++ drop i path_list in
    match rel_list with
    | [] => Some "."
    | a :: rest => Some (foldl join a rest)
    end.

End PosixPath.

(** ** The environment of a run *)

(** What the program observes of the outside world: the working
    directory, which regular files exist, the text of a file ([inl] holds
    the text of the OSError), the standard output of a command run in a
    directory with an optional standard input ([None]: the command fails,
    CalledProcessError), and the two functions of [shlex] ([None]: the
    ValueError of [shlex.split]). *)
Record env : Type := {
  getcwd : string;
  isfile : string → bool;
  open_lines : string → string + list string;
  check_output : list string → string → option string → option string;
  shlex_split : string → option (list string);
  shlex_quote : string → string;
}.

Definition nl : string := String "010"%char "".

(** A [for] loop whose body can leave the function. *)
Fixpoint for_each {S A} (body : S → A → outcome S) (st : S) (l : list A)
    : outcome S :=
  match l with
  | [] => Ret st
  | x :: l' => let* st' := body st x in for_each body st' l'
  end.

(** [l[i]] with its IndexError *)
Definition item (l : list string) (i : nat) : outcome string :=
  match l !! i with
  | Some x => Ret x
  | None => Raise IndexError
  end.

(** ** [parse_asm] *)

Definition SECTION_NAMES : list string :=
  [".text"; ".rdata"; ".rodata"; ".late_rodata"; ".bss"; ".data"].

(** The variables of the loop of [parse_asm]. *)
Record asm_state : Type := {
  func_name : option string;
  asm_lines : list string;
  cur_section : string;
}.

(** The section that is active once [line] has been looked at. *)
Definition next_section (cur : string) (line : string) : outcome string :=
  if Py.startswith (Py.strip line) ".section" then item (Py.split_ws line) 1
  else if Py.mem (Py.strip line) SECTION_NAMES then Ret (Py.strip line)
  else Ret cur.

(** The body of the loop over the lines of the file. *)
Definition parse_asm_line (st : asm_state) (line : string) : outcome asm_state :=
  let* cur := next_section (cur_section st) line in
  if bool_decide (cur = ".text") then
    let* name :=
      match func_name st with
      | None =>
          if Py.startswith (Py.strip line) "glabel "
          then let* n := item (Py.split_ws line) 1 in Ret (Some n)
          else Ret None
      | Some n => Ret (Some n)
      end in
    Ret {| func_name := name; asm_lines := asm_lines st ++ [line]; cur_section := cur |}
  else
    Ret {| func_name := func_name st; asm_lines := asm_lines st; cur_section := cur |}.

(** [[a-zA-Z0-9_$]+] matches the whole of [name]. *)
Fixpoint all_name_chars (name : string) : bool :=
  match name with
  | EmptyString => true
  | String c name' => (Py.is_ident c || bool_decide (c = "$"%char)) && all_name_chars name'
  end.
Definition valid_func_name (name : string) : bool :=
  negb (bool_decide (name = "")) && all_name_chars name.

(** [parse_asm] on the lines that iterating over the opened file gives
    (each line with its line end). *)
Definition parse_asm_lines (lines : list string) : outcome (string * string) :=
  let* st := for_each parse_asm_line
               {| func_name := None; asm_lines := []; cur_section := ".text" |} lines in
  match func_name st with
  | None =>
      Exit ("Missing function name in assembly file! "
            +:+ "The file should start with 'glabel function_name'.")
  | Some name =>
      if valid_func_name name then Ret (name, Py.join "" (asm_lines st))
      else Exit ("Bad function name: " +:+ name)
  end.

Definition parse_asm (E : env) (asm_file : string) : outcome (string * string) :=
  match open_lines E asm_file with
  | inl e => Exit ("Could not open assembly file: " +:+ e)
  | inr lines => parse_asm_lines lines
  end.

(** ** [find_makefile_dir] and [find_build_command_line] *)

Section Resolver.
Context (E : env).

Definition formatcmd (cmdline : list string) : string :=
  Py.join " " (shlex_quote E <$> cmdline).

(** [not old_dirname] *)
Definition falsy (s : option string) : bool :=
  match s with
  | None => true
  | Some s' => bool_decide (s' = "")
  end.

(** The inner [for] loop finds a makefile in [dirname]. *)
Definition has_makefile (dirname : string) : bool :=
  existsb (λ fname, isfile E (PosixPath.join dirname fname)) ["makefile"; "Makefile"].

(** The [while] loop of [find_makefile_dir]; one unit of [fuel] per test
    of its condition. *)
Fixpoint find_makefile_loop (fuel : nat) (filename : string)
    (old_dirname : option string) (dirname : string) : outcome string :=
  match fuel with
  | O => OutOfFuel
  | S fuel' =>
      if negb (bool_decide (dirname = ""))
         && (falsy old_dirname
             || (String.length dirname <? String.length (default "" old_dirname)))
      then
        if has_makefile dirname then Ret dirname
        else find_makefile_loop fuel' filename (Some dirname) (PosixPath.dirname dirname)
      else Exit ("Missing makefile for file " +:+ filename +:+ "!")
  end.

Definition find_makefile_dir (filename : string) : outcome string :=
  let dirname := PosixPath.abspath (getcwd E) (PosixPath.dirname filename) in
  find_makefile_loop (S (String.length dirname)) filename None dirname.

(** [while old in line: line = line.replace(old, new)] *)
Fixpoint collapse (fuel : nat) (old new line : string) : outcome string :=
  match fuel with
  | O => OutOfFuel
  | S fuel' =>
      if Py.contains old line then collapse fuel' old new (Py.replace old new line)
      else Ret line
  end.

Definition normalize_line (line : string) : outcome string :=
  let* line := collapse (S (String.length line)) "//" "/" line in
  collapse (S (String.length line)) "/./" "/" line.

(** The variables of the loop over the lines of the trace. *)
Record scan_state : Type := {
  output : list (list string);
  close_match : bool;
  assembler : list string;
}.

Definition scan_line (rel_c_file : string) (st : scan_state) (line : string)
    : outcome scan_state :=
  let* line := normalize_line line in
  if negb (Py.contains rel_c_file line) then Ret st
  else
    let st := {| output := output st; close_match := true; assembler := assembler st |} in
    match shlex_split E line with
    | None => Raise ValueError
    | Some parts =>
        if negb (Py.mem rel_c_file parts) then Ret st
        else if negb (Py.mem "-o" parts) then Ret st
        else if Py.mem "-fsyntax-only" parts then Ret st
        else
          let '(cmdline, asmproc_assembler) := fixup_build_command parts rel_c_file in
          Ret {| output := output st ++ [cmdline];
                 close_match := close_match st;
                 assembler := match asmproc_assembler with
                              | Some (a :: l) => a :: l
                              | _ => assembler st
                              end |}
    end.

(** [sep.join(l)] for a list [l] of lists: the first item already is
    not a [str], which is a TypeError. *)
Definition join_lists (sep : string) (l : list (list string)) : outcome string :=
  match l with
  | [] => Ret ""
  | _ :: _ => Raise TypeError
  end.

(** The part of [find_build_command_line] that follows the run of
    [make]: [debug_output] holds the lines of its output. *)
Definition select_build_command (rel_c_file : string) (make_flags : list string)
    (debug_output : list string) : outcome (list string * list string) :=
  let* st := for_each (scan_line rel_c_file)
               {| output := []; close_match := false; assembler := DEFAULT_AS_CMDLINE |}
               debug_output in
  match output st with
  | [] =>
      let close_extra :=
        if close_match st
        then nl +:+ "(Found one possible candidate, but didn't match due to "
             +:+ "either spaces in paths, having -fsyntax-only, or missing an -o flag.)"
        else "" in
      Exit ("Failed to find compile command from makefile output. "
            +:+ "Please ensure 'make -Bn --debug=j " +:+ formatcmd make_flags +:+ "' "
            +:+ "contains a line with the string '" +:+ rel_c_file +:+ "'." +:+ close_extra)
  | cmdline :: more =>
      if 1 <? length (output st) then
        let* output_lines := join_lists nl (output st) in
        Exit ("Error: found multiple compile commands for " +:+ rel_c_file +:+ ":" +:+ nl
              +:+ output_lines +:+ nl
              +:+ "Please modify the makefile such that if PERMUTER = 1, "
              +:+ "only a single compile command is included.")
      else Ret (cmdline, assembler st)
  end.

Definition find_build_command_line (c_file : string) (make_flags : list string)
    : outcome (list string * list string * string) :=
  let* makefile_dir :=
    find_makefile_dir (PosixPath.abspath (getcwd E) (PosixPath.dirname c_file)) in
  let* rel_c_file :=
    match PosixPath.relpath (getcwd E) c_file makefile_dir with
    | Some r => Ret r
    | None => Raise ValueError
    end in
  let make_cmd := ["make"; "--always-make"; "--dry-run"; "--debug=j"] ++ make_flags in
  let* out :=
    match check_output E make_cmd makefile_dir None with
    | Some o => Ret o
    | None => Raise (CalledProcessError make_cmd)
    end in
  let* found := select_build_command rel_c_file make_flags (Py.split "010" out) in
  Ret (found.1, found.2, makefile_dir).

End Resolver.

(** ** [preprocess_c_with_macros] and [import_c_file] *)

(** The regular expressions are used with [re.MULTILINE], where [^] holds
    at the start of the text and after each line feed, and none of them
    matches across a line feed: they are modelled line by line on the
    result of splitting the text at line feeds. *)

(** A match of [^([a-zA-Z0-9_]+)\(] at the start of [line]: group 1. *)
Definition column_zero_call (line : string) : option string :=
  let name_rest := Py.span_ident line in
  if negb (bool_decide (name_rest.1 = "")) && Py.startswith name_rest.2 "("
  then Some name_rest.1 else None.

Definition find_expand_macros (source : string) : gset string :=
  foldl (λ expand_macros (name : string), {[name]} ∪ expand_macros) ∅
    (omap column_zero_call (Py.split "010" source)).

(** A match of [^#define ([a-zA-Z0-9_]+)\(] at the start of [line]:
    group 1 and the text that follows the match. *)
Definition define_match (line : string) : option (string * string) :=
  if Py.startswith line "#define " then
    let name_rest := Py.span_ident (Py.skip 8 line) in
    match name_rest.2 with
    | String "("%char rest =>
        if bool_decide (name_rest.1 = "") then None else Some (name_rest.1, rest)
    | _ => None
    end
  else None.

Definition repl (expand_macros : gset string) (name : string) : string :=
  if bool_decide (name ∈ expand_macros) then "#define " +:+ name +:+ "("
  else "_permuter define " +:+ name +:+ "(".

(** What the first [re.sub] does to one line. *)
Definition rewrite_define (expand_macros : gset string) (line : string) : string :=
  match define_match line with
  | Some (name, rest) => repl expand_macros name +:+ rest
  | None => line
  end.

Definition sub_defines (expand_macros : gset string) (source : string) : string :=
  Py.join nl (rewrite_define expand_macros <$> Py.split "010" source).

(** The second [re.sub], [^#define __STDC_.*\n]: a match takes a whole
    line with its line feed, so the last piece of the text, which has no
    line feed, stays. *)
Fixpoint drop_stdc (lines : list string) : list string :=
  match lines with
  | [] => []
  | [line] => [line]
  | line :: lines' =>
      if Py.startswith line "#define __STDC_" then drop_stdc lines'
      else line :: drop_stdc lines'
  end.

Definition sub_stdc (source : string) : string :=
  Py.join nl (drop_stdc (Py.split "010" source)).

(** [reg_calls.finditer(line)]: every maximal run [cur] of identifier
    characters that an opening parenthesis follows. *)
Fixpoint calls_go (cur : string) (s : string) : list string :=
  match s with
  | EmptyString => []
  | String c s' =>
      if Py.is_ident c then calls_go (cur +:+ String c "") s'
      else if bool_decide (c = "("%char) && negb (bool_decide (cur = ""))
      then cur :: calls_go "" s'
      else calls_go "" s'
  end.
Definition reg_calls (line : string) : list string := calls_go "" line.

(** The variables of the loop over the lines of the second pass.  The
    dictionary [graph] is kept as the list of its edges [(name, name2)]
    in the order of the calls of [append]. *)
Record recover_state : Type := {
  late_defines : list (string * string);
  lines : list string;
  graph : list (string * string);
}.

(** [graph[name]] *)
Definition graph_get (graph : list (string * string)) (name : string) : list string :=
  snd <$> filter (λ e, e.1 = name) graph.

Definition recover_line (st : recover_state) (line : string) : outcome recover_state :=
  let* st_name :=
    if Py.startswith line "_permuter define " then
      match Py.split_once "(" line with
      | None => Raise ValueError
      | Some (before, after) =>
          let* name := item (Py.split_ws before) 2 in
          Ret ({| late_defines := late_defines st ++ [(name, after)];
                  lines := lines st; graph := graph st |}, name)
      end
    else
      Ret ({| late_defines := late_defines st; lines := lines st ++ [line];
              graph := graph st |}, "") in
  Ret {| late_defines := late_defines st_name.1; lines := lines st_name.1;
         graph := graph st_name.1 ++ ((λ name2, (st_name.2, name2)) <$> reg_calls line) |}.

(** The pruning loop; [queue.pop()] takes the last element.  One unit of
    [fuel] per test of the loop condition. *)
Fixpoint prune_loop (fuel : nat) (graph : list (string * string))
    (used_anywhere : gset string) (queue : list string) : outcome (gset string) :=
  match fuel with
  | O => OutOfFuel
  | S fuel' =>
      match last queue with
      | None => Ret used_anywhere
      | Some name =>
          let queue := removelast queue in
          if bool_decide (name ∈ used_anywhere) then prune_loop fuel' graph used_anywhere queue
          else prune_loop fuel' graph ({[name]} ∪ used_anywhere) (queue ++ graph_get graph name)
      end
  end.

Definition find_used_anywhere (graph : list (string * string)) : outcome (gset string) :=
  prune_loop (2 + length graph) graph ∅ [""].

(** The lines of the returned text. *)
Definition emit_lines (st : recover_state) (used_anywhere used_by_nonmacro : gset string)
    : list string :=
  ["#pragma _permuter latedefine start"]
  ++ ((λ d, "#pragma _permuter define " +:+ d.1 +:+ "(" +:+ d.2)
        <$> filter (λ d, d.1 ∈ used_anywhere) (late_defines st))
  ++ ((λ d, "int " +:+ d.1 +:+ "();")
        <$> filter (λ d, d.1 ∈ used_by_nonmacro) (late_defines st))
  ++ ["#pragma _permuter latedefine end"]
  ++ lines st
  ++ [""].

(** The part of [preprocess_c_with_macros] that follows the second pass. *)
Definition emit_late_defines (source : string) : outcome string :=
  let* st := for_each recover_line
               {| late_defines := []; lines := []; graph := [] |} (Py.splitlines source) in
  let used_by_nonmacro : gset string := list_to_set (graph_get (graph st) "") in
  let* used_anywhere := find_used_anywhere (graph st) in
  Ret (Py.join nl (emit_lines st used_anywhere used_by_nonmacro)).

(** The part of [preprocess_c_with_macros] between the two passes. *)
Definition hide_macros (source : string) : string :=
  sub_stdc (sub_defines (find_expand_macros source) source).

Section Preprocessor.
Context (E : env).

(** [subprocess.check_output(cmd, cwd=cwd, input=input)] *)
Definition run (cmd : list string) (cwd : string) (input : option string) : outcome string :=
  match check_output E cmd cwd input with
  | Some out => Ret out
  | None => Raise (CalledProcessError cmd)
  end.

Definition preprocess_c_with_macros (cpp_command : list string) (cwd : string)
    : outcome string :=
  let* source := run (cpp_command ++ ["-dD"; "-fdirectives-only"]) cwd None in
  let* source := run (CPP ++ STUB_FN_MACROS) cwd (Some (hide_macros source)) in
  emit_late_defines source.

(** The loop of [import_c_file] over the compiler's arguments. *)
Fixpoint cpp_flags (include_next : nat) (compiler : list string) : list string :=
  match compiler with
  | [] => []
  | arg :: compiler' =>
      match include_next with
      | S n => arg :: cpp_flags n compiler'
      | O =>
          if Py.mem arg ["-D"; "-U"; "-I"] then arg :: cpp_flags 1 compiler'
          else if Py.startswith arg "-D" || Py.startswith arg "-U"
                  || Py.startswith arg "-I" || Py.mem arg ["-nostdinc"]
          then arg :: cpp_flags 0 compiler'
          else cpp_flags 0 compiler'
      end
  end.

Definition import_c_file (compiler : list string) (cwd in_file : string)
    (preserve_macros : bool) : outcome string :=
  let* in_file :=
    match PosixPath.relpath (getcwd E) in_file cwd with
    | Some r => Ret r
    | None => Raise ValueError
    end in
  let cpp_command :=
    CPP ++ [in_file; "-D__sgi"; "-D_LANGUAGE_C"; "-DNON_MATCHING"] ++ cpp_flags 0 compiler in
  match (if preserve_macros then preprocess_c_with_macros cpp_command cwd
         else run (cpp_command ++ STUB_FN_MACROS) cwd None) with
  | Raise (CalledProcessError cmd) =>
      Exit ("Failed to preprocess input file, when running command:" +:+ nl
            +:+ formatcmd E cmd)
  | r => r
  end.

Definition dq : string := String "034"%char "".

(** The text that [write_compile_command] writes to the compile script. *)
Definition write_compile_command (compiler : list string) (cwd : string) : string :=
  "#!/usr/bin/env bash" +:+ nl
  +:+ "INPUT=" +:+ dq +:+ "$(readlink -f " +:+ dq +:+ "$1" +:+ dq +:+ ")" +:+ dq +:+ nl
  +:+ "OUTPUT=" +:+ dq +:+ "$(readlink -f " +:+ dq +:+ "$3" +:+ dq +:+ ")" +:+ dq +:+ nl
  +:+ "cd " +:+ shlex_quote E cwd +:+ nl
  +:+ formatcmd E compiler
  +:+ " " +:+ dq +:+ "$INPUT" +:+ dq +:+ " -o " +:+ dq +:+ "$OUTPUT" +:+ dq +:+ nl.

End Preprocessor.

(** ** Environments for the examples *)

Module Sample.

(** On a line that holds no quote and no backslash, and whose blanks are
    spaces, [shlex.split] returns its words. *)
Definition plain_split (line : string) : option (list string) :=
  Some (Py.split_ws line).

(** [shlex.quote] returns a non-empty string of letters, digits and
    [@%+=:,./-_] as it is. *)
Definition plain_quote (s : string) : string := s.

(** No file can be opened. *)
Definition no_lines (name : string) : string + list string :=
  inl "No such file or directory".

(** An environment with working directory [cwd], the regular files
    [files] and the commands [tools]. *)
Definition make_env (cwd : string) (files : list string)
    (tools : list string → string → option string → option string) : env :=
  {| getcwd := cwd;
     isfile := λ p, Py.mem p files;
     open_lines := no_lines;
     check_output := tools;
     shlex_split := plain_split;
     shlex_quote := plain_quote |}.

(** [make] prints [out] whatever its arguments; every other command
    fails. *)
Definition make_prints (out : string) (cmd : list string) (cwd : string)
    (input : option string) : option string :=
  if bool_decide (head cmd = Some "make") then Some out else None.

End Sample.

(** ** The working tree and the run of [main] *)

(** [str(n)] for [n >= 0] *)
Definition str_of_nat (n : nat) : string := NilEmpty.string_of_uint (Nat.to_uint n).

Definition ASM_PRELUDE : string :=
  nl +:+ ".set noat" +:+ nl
  +:+ ".set noreorder" +:+ nl
  +:+ ".set gp=64" +:+ nl
  +:+ ".macro glabel label" +:+ nl
  +:+ "    .global \label" +:+ nl
  +:+ "    .type \label, @function" +:+ nl
  +:+ "    \label:" +:+ nl
  +:+ ".endm" +:+ nl.

(** An entry of the tree below the working directory: a directory, or a
    regular file with its text and the mode that [os.chmod] gave it
    ([None]: the mode that the file got when it was created).  The tree
    is keyed by the text of a relative path; this identifies an entry
    when the components of the path are plain names, as are those of
    the paths that [main] builds from a function name that [parse_asm]
    has accepted. *)
Inductive node : Type :=
  | Dir
  | File (cont : string) (mode : option N).

Inductive os_error : Type :=
  | FileExistsError (path : string)
  | FileNotFoundError (path : string)
  | NotADirectoryError (path : string)
  | IsADirectoryError (path : string).

(** How a run leaves a function other than by returning: [sys.exit(1)]
    after [msg] on standard error, one of the exceptions of [exn], or an
    [OSError] of the operating system. *)
Inductive failure : Type :=
  | SystemExit (msg : string)
  | Escaped (e : exn)
  | OSError (e : os_error).

Inductive result (A : Type) : Type :=
  | Done (v : A)
  | Failed (f : failure)
  | Diverged.
Arguments Done {A} v.
Arguments Failed {A} f.
Arguments Diverged {A}.

(** What a run changes: the tree, and the lines printed on standard
    output. *)
Record world : Type := {
  tree : gmap string node;
  stdout : list string;
}.

Definition prog (A : Type) : Type := world → result A * world.

Definition and_then {A B} (m : prog A) (k : A → prog B) : prog B :=
  λ w, match m w with
       | (Done v, w') => k v w'
       | (Failed f, w') => (Failed f, w')
       | (Diverged, w') => (Diverged, w')
       end.

Notation "'let!' x := m 'in' k" := (and_then m (fun x => k))
  (at level 10, x pattern, m at level 100, k at level 200).

(** A function without effect on the world. *)
Definition lift {A} (o : outcome A) : prog A :=
  λ w, (match o with
        | Ret v => Done v
        | Exit msg => Failed (SystemExit msg)
        | Raise e => Failed (Escaped e)
        | OutOfFuel => Diverged
        end, w).

Definition print (line : string) : prog unit :=
  λ w, (Done tt, {| tree := tree w; stdout := stdout w ++ [line] |}).

(** An operation of [os] on the tree. *)
Definition os_call (op : gmap string node → os_error + gmap string node) : prog unit :=
  λ w, match op (tree w) with
       | inl e => (Failed (OSError e), w)
       | inr t => (Done tt, {| tree := t; stdout := stdout w |})
       end.

(** The directory that is to hold [path] exists. *)
Definition parent_error (t : gmap string node) (path : string) : option os_error :=
  let parent := PosixPath.dirname path in
  if bool_decide (parent = "") then None
  else
    match t !! parent with
    | None => Some (FileNotFoundError path)
    | Some (File _ _) => Some (NotADirectoryError path)
    | Some Dir => None
    end.

(** [os.mkdir(path)] *)
Definition mkdir (path : string) (t : gmap string node) : os_error + gmap string node :=
  match parent_error t path with
  | Some e => inl e
  | None =>
      match t !! path with
      | Some _ => inl (FileExistsError path)
      | None => inr (<[path := Dir]> t)
      end
  end.

(** [os.makedirs("nonmatchings/", exist_ok=True)] *)
Definition makedirs_nonmatchings (t : gmap string node) : os_error + gmap string node :=
  match t !! "nonmatchings" with
  | None => inr (<["nonmatchings" := Dir]> t)
  | Some Dir => inr t
  | Some (File _ _) => inl (FileExistsError "nonmatchings/")
  end.

(** [with open(path, "w") as f: f.write(cont)] *)
Definition write_text (path cont : string) (t : gmap string node)
    : os_error + gmap string node :=
  match parent_error t path with
  | Some e => inl e
  | None =>
      match t !! path with
      | Some Dir => inl (IsADirectoryError path)
      | Some (File _ mode) => inr (<[path := File cont mode]> t)
      | None => inr (<[path := File cont None]> t)
      end
  end.

(** [os.chmod(path, mode)]; the mode of a directory is not kept. *)
Definition chmod (path : string) (mode : N) (t : gmap string node)
    : os_error + gmap string node :=
  match t !! path with
  | None => inl (FileNotFoundError path)
  | Some Dir => inr t
  | Some (File cont _) => inr (<[path := File cont (Some mode)]> t)
  end.

(** [path] is [dirname] or lies below it. *)
Definition under (dirname path : string) : bool :=
  bool_decide (path = dirname) || Py.startswith path (dirname +:+ "/").

(** [shutil.rmtree(dirname)] *)
Definition rmtree (dirname : string) (t : gmap string node) : os_error + gmap string node :=
  match t !! dirname with
  | None => inl (FileNotFoundError dirname)
  | Some (File _ _) => inl (NotADirectoryError dirname)
  | Some Dir => inr (filter (λ entry, under dirname entry.1 = false) t)
  end.

(** How [subprocess.check_call] ends: the command returns 0, returns
    another status (CalledProcessError), or cannot be started. *)
Inductive call_status : Type :=
  | Returned0
  | ReturnedNonzero
  | NotStarted (e : os_error).

(** The [while True] loop of [create_directory]; [ctr] is the value of
    the counter at the start of the round. *)
Fixpoint create_directory_loop (fuel : nat) (func_name : string) (ctr : nat)
    : prog string :=
  match fuel with
  | O => λ w, (Diverged, w)
  | S fuel' =>
      let ctr := ctr + 1 in
      let dirname := if 1 <? ctr then func_name +:+ "-" +:+ str_of_nat ctr else func_name in
      let dirname := "nonmatchings/" +:+ dirname in
      λ w, match mkdir dirname (tree w) with
           | inr t => (Done dirname, {| tree := t; stdout := stdout w |})
           | inl (FileExistsError _) => create_directory_loop fuel' func_name ctr w
           | inl e => (Failed (OSError e), w)
           end
  end.

Definition create_directory (func_name : string) : prog string :=
  let! _ := os_call makedirs_nonmatchings in
  λ w, create_directory_loop (2 + size (tree w)) func_name 0 w.

Definition write_to_file (cont filename : string) : prog unit :=
  os_call (write_text filename cont).

Definition write_asm (asm_cont out_file : string) : prog unit :=
  os_call (write_text out_file (ASM_PRELUDE +:+ asm_cont)).

(** The command-line arguments, as [argparse] hands them over. *)
Record arguments : Type := {
  arg_c_file : string;
  arg_asm_file : string;
  arg_make_flags : list string;
  arg_keep : bool;
  arg_preserve_macros : bool;
}.

Section Driver.
Context (E : env).
(** What a command does when [subprocess.check_call] runs it in a
    directory ([None]: the working directory): how it ends, and the tree
    that it leaves. *)
Context (tool : list string → option string → gmap string node
                → call_status * gmap string node).

Definition check_call (cmd : list string) (cwd : option string) : prog unit :=
  λ w, let r := tool cmd cwd (tree w) in
       (match r.1 with
        | Returned0 => Done tt
        | ReturnedNonzero => Failed (Escaped (CalledProcessError cmd))
        | NotStarted e => Failed (OSError e)
        end, {| tree := r.2; stdout := stdout w |}).

(** [write_compile_command(compiler, cwd, out_file)]: the text is that
    of [write_compile_command] above. *)
Definition write_compile_script (compiler : list string) (cwd out_file : string)
    : prog unit :=
  let! _ := os_call (write_text out_file (write_compile_command E compiler cwd)) in
  os_call (chmod out_file 493).

Definition compile_asm (assembler : list string) (cwd in_file out_file : string)
    : prog unit :=
  let in_file := PosixPath.abspath (getcwd E) in_file in
  let out_file := PosixPath.abspath (getcwd E) out_file in
  let cmdline := assembler ++ [in_file; "-o"; out_file] in
  λ w, match check_call cmdline (Some cwd) w with
       | (Failed (Escaped (CalledProcessError _)), w') =>
           (Failed (SystemExit ("Failed to assemble .s file, command line:" +:+ nl
                                +:+ formatcmd E cmdline)), w')
       | r => r
       end.

Definition compile_base (compile_script in_file out_file : string) : prog unit :=
  let in_file := PosixPath.abspath (getcwd E) in_file in
  let out_file := PosixPath.abspath (getcwd E) out_file in
  let compile_cmd := [compile_script; in_file; "-o"; out_file] in
  λ w, match check_call compile_cmd None w with
       | (Failed (Escaped (CalledProcessError _)), w') =>
           print ("Warning: failed to compile .c file, you'll need to adjust it manually. "
                  +:+ "Command line:" +:+ nl +:+ formatcmd E compile_cmd) w'
       | r => r
       end.

(** [try: body / except: if not keep: print, rmtree / raise] *)
Definition or_delete (keep : bool) (dirname : string) (body : prog unit) : prog unit :=
  λ w, match body w with
       | (Failed f, w') =>
           if keep then (Failed f, w')
           else
             (let! _ := print (nl +:+ "Deleting directory " +:+ dirname
                               +:+ " (run with --keep to preserve it).") in
              let! _ := os_call (rmtree dirname) in
              λ w'', (Failed f, w'')) w'
       | r => r
       end.

(** The body of the [try] statement of [main]. *)
Definition main_try (source func_name asm_cont : string) (compiler assembler : list string)
    (cwd dirname : string) : prog unit :=
  let base_c_file := dirname +:+ "/base.c" in
  let base_o_file := dirname +:+ "/base.o" in
  let target_s_file := dirname +:+ "/target.s" in
  let target_o_file := dirname +:+ "/target.o" in
  let compile_script := dirname +:+ "/compile.sh" in
  let func_name_file := dirname +:+ "/function.txt" in
  let! _ := write_to_file source base_c_file in
  let! _ := write_to_file func_name func_name_file in
  let! _ := write_compile_script compiler cwd compile_script in
  let! _ := write_asm asm_cont target_s_file in
  let! _ := compile_asm assembler cwd target_s_file target_o_file in
  compile_base compile_script base_c_file base_o_file.

Definition main (args : arguments) : prog unit :=
  let make_flags := arg_make_flags args ++ ["PERMUTER=1"] in
  let! func_asm := lift (parse_asm E (arg_asm_file args)) in
  let func_name := func_asm.1 in
  let asm_cont := func_asm.2 in
  let! _ := print ("Function name: " +:+ func_name) in
  let! found := lift (find_build_command_line E (arg_c_file args) make_flags) in
  let compiler := found.1.1 in
  let assembler := found.1.2 in
  let cwd := found.2 in
  let! _ := print ("Compiler: " +:+ formatcmd E compiler +:+ " {input} -o {output}") in
  let! _ := print ("Assembler: " +:+ formatcmd E assembler +:+ " {input} -o {output}") in
  let! source :=
    lift (import_c_file E compiler cwd (arg_c_file args) (arg_preserve_macros args)) in
  let! dirname := create_directory func_name in
  let! _ :=
    or_delete (arg_keep args) dirname
      (main_try source func_name asm_cont compiler assembler cwd dirname) in
  print (nl +:+ "Done. Imported into " +:+ dirname).

End Driver.

(** The paths [d] such that [path] starts with [d] and a slash. *)
Fixpoint parents (path : string) : list string :=
  match path with
  | EmptyString => []
  | String c path' =>
      (if bool_decide (c = "/"%char) then [""] else []) ++ (String c <$> parents path')
  end.

(** A run of [main] for the examples: the project [/proj] with its
    makefile, the listing [asm/foo.s] of the function [foo], a trace
    with one compile command for [src/foo.c], and a preprocessor that
    prints one definition. *)
Module Run.

Definition listing : list string :=
  ["glabel foo" +:+ nl; "  jr $ra" +:+ nl; "   nop" +:+ nl].

Definition commands (cmd : list string) (cwd : string) (input : option string)
    : option string :=
  if bool_decide (head cmd = Some "make")
  then Some ("cc -c -O2 -Iinclude src/foo.c -o build/foo.o" +:+ nl)
  else if bool_decide (head cmd = Some "cpp")
  then Some ("int foo(void) { return 1; }" +:+ nl)
  else None.

Definition E : env :=
  {| getcwd := "/proj";
     isfile := λ p, Py.mem p ["/proj/Makefile"];
     open_lines := λ name,
       if bool_decide (name = "asm/foo.s") then inr listing
       else inl "No such file or directory";
     check_output := commands;
     shlex_split := Sample.plain_split;
     shlex_quote := Sample.plain_quote |}.

Definition args (keep : bool) : arguments :=
  {| arg_c_file := "src/foo.c"; arg_asm_file := "asm/foo.s"; arg_make_flags := [];
     arg_keep := keep; arg_preserve_macros := false |}.

(** Every command returns 0 and leaves the tree as it is. *)
Definition quiet (cmd : list string) (cwd : option string) (t : gmap string node)
    : call_status * gmap string node :=
  (Returned0, t).

(** The assembler, which is the command that is given a directory,
    writes a file into the directory of its output and fails. *)
Definition broken_as (cmd : list string) (cwd : option string) (t : gmap string node)
    : call_status * gmap string node :=
  match cwd with
  | Some _ => (ReturnedNonzero, <["nonmatchings/foo-2/target.o" := File "" None]> t)
  | None => (Returned0, t)
  end.

(** A tree that holds an earlier import of [foo]. *)
Definition before : world :=
  {| tree := {["nonmatchings" := Dir; "nonmatchings/foo" := Dir;
               "nonmatchings/foo/base.c" := File "int foo(void);" None]};
     stdout := [] |}.

(** An environment in which every file that is opened holds [lines]. *)
Definition reads (lines : list string) : env :=
  {| getcwd := "/proj";
     isfile := λ _, false;
     open_lines := λ _, inr lines;
     check_output := λ _ _ _, None;
     shlex_split := Sample.plain_split;
     shlex_quote := Sample.plain_quote |}.

(** A [shlex.split] that finds no closing quotation on a line with an
    apostrophe. *)
Definition strict_split (line : string) : option (list string) :=
  if Py.contains "'" line then None else Some (Py.split_ws line).

Definition strict : env :=
  {| getcwd := "/proj";
     isfile := λ _, false;
     open_lines := Sample.no_lines;
     check_output := λ _ _ _, None;
     shlex_split := strict_split;
     shlex_quote := Sample.plain_quote |}.

End Run.

(** ** Notions used to state the properties *)

Definition is_flag (part : string) : bool := Py.mem part ["-MF"; "-o"].

(** The value of [skip_count] once the first loop of
    [fixup_build_command] has gone through [parts]. *)
Fixpoint skip_after (skip_count : nat) (parts : list string) : nat :=
  match parts with
  | [] => skip_count
  | part :: parts' =>
      match skip_count with
      | S n => skip_after n parts'
      | O => if is_flag part then skip_after 1 parts' else skip_after 0 parts'
      end
  end.

(** A wrapped command line, as the first loop leaves it: [pre], the first
    token [w] that refers to the wrapper, [mid] up to the first separator,
    [asm] up to the second separator, [post]. *)
Definition wrapped (res pre : list string) (w : string) (mid asm post : list string)
    : Prop :=
  res = pre ++ w :: mid ++ "--" :: asm ++ "--" :: post
  ∧ Forall (λ t, references_wrapper t = false) pre
  ∧ references_wrapper w = true
  ∧ ("--" ∉ mid) ∧ ("--" ∉ asm).

(** The assembler that the loop of [find_build_command_line] keeps after
    a candidate for which [fixup_build_command] reported [found]. *)
Definition pick_assembler (asm : list string) (found : option (list string))
    : list string :=
  match found with
  | Some (a :: l) => a :: l
  | _ => asm
  end.

(** The tokens of a line of the trace that is kept: its normalised text
    contains [rel_c_file], and its tokens contain [rel_c_file] and [-o]
    and do not contain [-fsyntax-only]. *)
Definition candidate (E : env) (rel_c_file line : string) : option (list string) :=
  match normalize_line line with
  | Ret nline =>
      if Py.contains rel_c_file nline then
        match shlex_split E nline with
        | Some parts =>
            if Py.mem rel_c_file parts && Py.mem "-o" parts
               && negb (Py.mem "-fsyntax-only" parts)
            then Some parts else None
        | None => None
        end
      else None
  | _ => None
  end.

(** [shlex.split] accepts the line, should the loop come to split it. *)
Definition tokenizes (E : env) (rel_c_file line : string) : Prop :=
  ∀ nline, normalize_line line = Ret nline →
    Py.contains rel_c_file nline = true → is_Some (shlex_split E nline).

(** A line's tokens without the pairs made of [-o] or [-MF] and the
    token after it, as the specification words it. *)
Fixpoint drop_flag_pairs (parts : list string) : list string :=
  match parts with
  | [] => []
  | part :: parts' =>
      if is_flag part then
        match parts' with
        | [] => []
        | _ :: parts'' => drop_flag_pairs parts''
        end
      else part :: drop_flag_pairs parts'
  end.

(** The ways in which the wrapper pattern can be incomplete in the list
    [res] left by the first loop, each with the token list and the
    assembler that [fixup_build_command] then returns: no token refers
    to the wrapper; fewer than two separators follow the first such
    token; nothing stands between the two separators. *)
Inductive incomplete (res : list string) : list string → option (list string) → Prop :=
  | no_wrapper :
      Forall (λ t, references_wrapper t = false) res →
      incomplete res res None
  | few_separators pre w rest :
      res = pre ++ w :: rest →
      Forall (λ t, references_wrapper t = false) pre →
      references_wrapper w = true →
      length (filter (λ t, t = "--") rest) < 2 →
      incomplete res res None
  | empty_segment pre w mid post :
      wrapped res pre w mid [] post →
      incomplete res (mid ++ post) (Some []).

(** The section that is active after [line], for a line whose directive
    is well formed. *)
Definition section_of (cur line : string) : string :=
  match next_section cur line with
  | Ret s => s
  | _ => cur
  end.

(** A [.section] directive names its section. *)
Definition well_formed (line : string) : Prop :=
  Py.startswith (Py.strip line) ".section" = true → is_Some (Py.split_ws line !! 1).

(** The lines read while the executable section is the active one, the
    active section being [cur] at first and then the one that the latest
    section directive names. *)
Fixpoint text_lines (cur : string) (lines : list string) : list string :=
  match lines with
  | [] => []
  | line :: lines' =>
      let cur' := section_of cur line in
      if bool_decide (cur' = ".text") then line :: text_lines cur' lines'
      else text_lines cur' lines'
  end.

(** [line] introduces a function. *)
Definition is_glabel (line : string) : bool := Py.startswith (Py.strip line) "glabel ".

(** The name on the first line of [lines] that introduces a function. *)
Definition first_glabel (lines : list string) : option string :=
  head (filter (λ line, is_glabel line = true) lines) ≫= λ line, Py.split_ws line !! 1.

(** [rest] is empty or starts with a blank. *)
Definition ends_word (rest : string) : bool :=
  match rest with
  | EmptyString => true
  | String c _ => Py.is_space c
  end.

(** The [n]-th ancestor of a directory. *)
Definition ancestor (n : nat) (dirname : string) : string :=
  Nat.iter n PosixPath.dirname dirname.

(** No character of [s] is a blank. *)
Fixpoint nonblank (s : string) : bool :=
  match s with
  | EmptyString => true
  | String c s' => negb (Py.is_space c) && nonblank s'
  end.

(** Every character of [s] is in [[a-zA-Z0-9_]]. *)
Fixpoint all_ident (s : string) : bool :=
  match s with
  | EmptyString => true
  | String c s' => Py.is_ident c && all_ident s'
  end.

(** The C preprocessor takes a line for a directive when its first
    non-blank character is [#]. *)
Definition is_directive (line : string) : bool := Py.startswith (Py.lstrip line) "#".

(** The characters of [s] differ from [sep]. *)
Fixpoint lacks (sep : ascii) (s : string) : bool :=
  match s with
  | EmptyString => true
  | String c s' => negb (bool_decide (c = sep)) && lacks sep s'
  end.

(** What the recovery loop reads from a line of the second pass: the
    name and the text of a hidden definition, if the line is one. *)
Definition late_define_of (line : string) : option (string * string) :=
  if Py.startswith line "_permuter define " then
    before_after ← Py.split_once "(" line;
    name ← Py.split_ws before_after.1 !! 2;
    Some (name, before_after.2)
  else None.

(** The context that the calls on a line of the second pass belong to. *)
Definition context_of (line : string) : string :=
  default "" (fst <$> late_define_of line).


(** An edge of the call graph, and the names that can be reached. *)
Definition edge (graph : list (string * string)) (name name2 : string) : Prop :=
  (name, name2) ∈ graph.
Definition reachable (graph : list (string * string)) : string → string → Prop :=
  rtc (edge graph).

(** The edges that start outside of [used]. *)
Definition pending (graph : list (string * string)) (used : gset string)
    : list (string * string) :=
  filter (λ e, e.1 ∉ used) graph.

(** What holds of [used_anywhere] and [queue] at each test of the
    condition of the pruning loop. *)
Record prune_inv (graph : list (string * string)) (used : gset string)
    (queue : list string) : Prop := {
  inv_reachable : ∀ name, name ∈ used ∨ name ∈ queue → reachable graph "" name;
  inv_root : "" ∈ used ∨ "" ∈ queue;
  inv_closed : ∀ name name2, name ∈ used → edge graph name name2 →
                 name2 ∈ used ∨ name2 ∈ queue;
}.

(** The name that [create_directory] tries when its counter is [ctr]. *)
Definition attempt (func_name : string) (ctr : nat) : string :=
  "nonmatchings/"
  +:+ (if 1 <? ctr then func_name +:+ "-" +:+ str_of_nat ctr else func_name).

(** No entry lies below a path that does not exist. *)
Definition no_orphans (t : gmap string node) : Prop :=
  ∀ dirname path,
    t !! dirname = None → Py.startswith path (dirname +:+ "/") = true → t !! path = None.

(** A property of the tree that holds after [p] whenever it holds
    before, however [p] ends. *)
Definition keeps (inv : gmap string node → Prop) {A} (p : prog A) : Prop :=
  ∀ w, inv (tree w) → inv (tree (p w).2).

(** The normalised text of [line] contains [rel_c_file]. *)
Definition mentions (rel_c_file line : string) : bool :=
  match normalize_line line with
  | Ret nline => Py.contains rel_c_file nline
  | _ => false
  end.

(** The arguments that [import_c_file] takes for preprocessor flags,
    and those among them that take their operand from the next
    argument. *)
Definition is_cpp_flag (arg : string) : bool :=
  Py.startswith arg "-D" || Py.startswith arg "-U" || Py.startswith arg "-I"
  || Py.mem arg ["-nostdinc"].
Definition takes_operand (arg : string) : bool := Py.mem arg ["-D"; "-U"; "-I"].

(** The function name that the loop has at its end is the one that it
    had at the start, or comes from a [glabel] line that it has kept. *)
Definition named_by (before after : option string) (kept : list string) : Prop :=
  after = before
  ∨ (before = None
     ∧ ∃ line, line ∈ kept ∧ is_glabel line = true ∧ Py.split_ws line !! 1 = after).

(** * Properties *)

(** ** Strings *)

Lemma str_app_cons c s t : String c s +:+ t = String c (s +:+ t).
Proof. reflexivity. Qed.

Lemma str_app_nil_l s : "" +:+ s = s.
Proof. reflexivity. Qed.

Lemma str_app_nil_r s : s +:+ "" = s.
Proof. induction s as [|c s IH]; [done|]. by rewrite str_app_cons, IH. Qed.

Lemma str_app_assoc s t u : (s +:+ t) +:+ u = s +:+ t +:+ u.
Proof. induction s as [|c s IH]; [done|]. by rewrite !str_app_cons, IH. Qed.

Lemma str_length_app s t : String.length (s +:+ t) = String.length s + String.length t.
Proof. induction s as [|c s IH]; [done|]. rewrite str_app_cons. simpl. by rewrite IH. Qed.

Lemma startswith_length s p :
  Py.startswith s p = true → String.length p ≤ String.length s.
Proof.
  revert s. induction p as [|a p IH]; intros [|b s]; simpl; try done; try lia.
  intros [_ H]%andb_true_iff. apply IH in H. lia.
Qed.

Lemma startswith_app p s : Py.startswith (p +:+ s) p = true.
Proof.
  induction p as [|a p IH]; [by destruct s|].
  rewrite str_app_cons. simpl. rewrite bool_decide_eq_true_2 by done. done.
Qed.

Lemma startswith_inv s p : Py.startswith s p = true → ∃ r, s = p +:+ r.
Proof.
  revert s. induction p as [|a p IH]; intros s; simpl.
  - intros _. by exists s.
  - destruct s as [|b s]; [done|].
    intros [->%bool_decide_eq_true [r ->]%IH]%andb_true_iff. by exists r.
Qed.

(** [str.replace] shortens the text when the replacement is shorter *)
Section Replace.
Context (old new : string).
Hypothesis Hlen : String.length new < String.length old.

Lemma replace_go_length_le k s :
  String.length (Py.replace_go old new k s) ≤ String.length s - k.
Proof.
  revert k. induction s as [|c s IH]; intros k; cbn [Py.replace_go String.length]; [lia|].
  destruct k as [|k]; [|apply IH].
  destruct (Py.startswith (String c s) old) eqn:Hp.
  - apply startswith_length in Hp. cbn [String.length] in Hp.
    rewrite str_length_app. specialize (IH (String.length old - 1)). lia.
  - cbn [String.length]. specialize (IH 0). lia.
Qed.

Lemma replace_go_length_lt k s :
  Py.contains old (Py.skip k s) = true →
  String.length (Py.replace_go old new k s) + k < String.length s.
Proof.
  revert k. induction s as [|c s IH]; intros k.
  - destruct k; simpl; destruct old; simpl in *; try done; lia.
  - destruct k as [|k]; cbn [Py.replace_go Py.skip Py.contains String.length].
    + destruct (Py.startswith (String c s) old) eqn:Hp.
      * intros _. apply startswith_length in Hp. cbn [String.length] in Hp.
        rewrite str_length_app.
        pose proof (replace_go_length_le (String.length old - 1) s). lia.
      * intros H. apply (IH 0) in H. cbn [String.length]. lia.
    + intros H. apply IH in H. lia.
Qed.

Lemma collapse_total fuel line :
  String.length line < fuel →
  ∃ r, collapse fuel old new line = Ret r ∧ Py.contains old r = false.
Proof.
  revert line. induction fuel as [|fuel IH]; intros line Hf; [lia|].
  cbn [collapse]. destruct (Py.contains old line) eqn:Hc; [|by exists line].
  apply IH. pose proof (replace_go_length_lt 0 line Hc). unfold Py.replace. lia.
Qed.

End Replace.

Lemma normalize_line_total line : ∃ r, normalize_line line = Ret r.
Proof.
  unfold normalize_line.
  destruct (collapse_total "//" "/" ltac:(simpl; lia) (S (String.length line)) line)
    as (r1 & -> & H1); [lia|]. cbn [bind].
  destruct (collapse_total "/./" "/" ltac:(simpl; lia) (S (String.length r1)) r1)
    as (r2 & -> & H2); [lia|].
  by exists r2.
Qed.

(** ** [fixup_build_command] *)

Section Fixup.
Implicit Types (parts res pre mid asm post : list string) (t w ign : string).

Lemma first_index_app P pre w post :
  Forall (λ t, P t = false) pre → P w = true →
  Py.first_index P (pre ++ w :: post) = Some (length pre).
Proof.
  intros Hpre Hw. unfold Py.first_index.
  induction Hpre as [|t pre Ht _ IH]; simpl.
  - rewrite decide_True by done. done.
  - rewrite decide_False by congruence.
    destruct (list_find _ (pre ++ w :: post)) as [[i y]|]; simplify_eq/=; done.
Qed.

Lemma first_index_None P res :
  Forall (λ t, P t = false) res → Py.first_index P res = None.
Proof.
  intros H. unfold Py.first_index.
  assert (list_find (λ y, P y = true) res = None) as ->; [|done].
  apply list_find_None. eapply Forall_impl; [exact H|]. simpl. congruence.
Qed.

Lemma list_find_eq_app t mid post :
  t ∉ mid → list_find (λ y, y = t) (mid ++ t :: post) = Some (length mid, t).
Proof.
  induction mid as [|m mid IH]; simpl; intros Hmid.
  - rewrite decide_True by done. done.
  - apply not_elem_of_cons in Hmid as [? ?].
    rewrite decide_False by done. rewrite IH by done. done.
Qed.

Lemma index_found res t start mid post :
  drop start res = mid ++ t :: post → t ∉ mid →
  Py.index res t start = Some (start + length mid).
Proof.
  intros Hd Hmid. unfold Py.index. rewrite Hd, list_find_eq_app by done. done.
Qed.

Lemma index_None res t start : t ∉ drop start res → Py.index res t start = None.
Proof.
  intros H. unfold Py.index.
  assert (list_find (λ y, y = t) (drop start res) = None) as ->; [|done].
  apply list_find_None, Forall_forall. intros y Hy ->. done.
Qed.

Lemma index_bounds res t start i :
  Py.index res t start = Some i → start ≤ i < length res.
Proof.
  unfold Py.index. intros H.
  destruct (list_find _ _) as [[j y]|] eqn:Hf; simplify_eq/=.
  apply list_find_Some in Hf as (Hj & _ & _).
  apply lookup_lt_Some in Hj. rewrite length_drop in Hj. lia.
Qed.

Lemma drop_after pre w (rest : list string) : drop (length pre + 1) (pre ++ w :: rest) = rest.
Proof.
  rewrite drop_app_add'; [|done]. done.
Qed.

Lemma unwrap_wrapped res pre w mid asm post :
  wrapped res pre w mid asm post →
  unwrap_asm_processor res = Some (mid ++ post, asm).
Proof.
  intros (-> & Hpre & Hw & Hmid & Hasm). unfold unwrap_asm_processor.
  rewrite first_index_app by done. simpl.
  erewrite index_found; [|apply drop_after|done]. simpl.
  assert (drop (length pre + 1 + length mid + 1)
            (pre ++ w :: mid ++ "--" :: asm ++ "--" :: post) = asm ++ "--" :: post) as Hd1.
  { replace (length pre + 1 + length mid + 1)
      with (length (pre ++ w :: mid) + 1) by (rewrite length_app; simpl; lia).
    replace (pre ++ w :: mid ++ "--" :: asm ++ "--" :: post)
      with ((pre ++ w :: mid) ++ "--" :: asm ++ "--" :: post)
      by (rewrite <- app_assoc; done).
    apply drop_after. }
  erewrite index_found; [|exact Hd1|done]. simpl.
  unfold Py.slice. f_equal. f_equal.
  - f_equal.
    + replace (length pre + 1 + length mid - (length pre + 1)) with (length mid) by lia.
      rewrite drop_after. apply take_app_length.
    + replace (length pre + 1 + length mid + 1 + length asm + 1)
        with ((length pre + 1 + length mid + 1) + (length asm + 1)) by lia.
      rewrite <- drop_drop, Hd1. apply drop_after.
  - replace (length pre + 1 + length mid + 1 + length asm
             - (length pre + 1 + length mid + 1)) with (length asm) by lia.
    rewrite Hd1. apply take_app_length.
Qed.

(** C1 (amended).  When the list left by the first loop is a wrapped
    command line [pre ++ w :: mid ++ "--" :: asm ++ "--" :: post],
    [fixup_build_command] returns the compiler tokens [mid ++ post], the
    tokens between the wrapper and the first separator followed by those
    after the second separator, and the assembler tokens [asm]; the
    tokens [pre] before the wrapper are dropped. *)
Theorem fixup_unwraps_wrapper parts ign pre w mid asm post :
  wrapped (strip_parts ign 0 parts) pre w mid asm post →
  fixup_build_command parts ign = (mid ++ post, Some asm).
Proof.
  intros H. unfold fixup_build_command. rewrite (unwrap_wrapped _ _ _ _ _ _ H). done.
Qed.

Lemma fixup_unwraps_wrapper_witness :
  fixup_build_command
    ["env"; "python3"; "tools/asm_processor/build.py"; "cc"; "--";
     "as"; "-mabi=32"; "--"; "-c"; "-O2"; "src/foo.c"; "-o"; "build/foo.o"]
    "src/foo.c"
  = (["cc"] ++ ["-c"; "-O2"], Some ["as"; "-mabi=32"]).
Proof.
  apply (fixup_unwraps_wrapper _ _ ["env"; "python3"] "tools/asm_processor/build.py").
  unfold wrapped. split; [vm_compute; reflexivity|].
  split; [repeat constructor|]. split; [vm_compute; reflexivity|].
  split; apply (bool_decide_unpack _); vm_compute; exact I.
Defined.

(** The tokens before the wrapper are not part of the result. *)
Lemma fixup_drops_prefix_counterexample :
  fixup_build_command
    ["A"; "B"; "tools/asm_processor/build.py"; "C"; "--"; "D"; "E"; "--"; "F"; "G"]
    "src/foo.c"
  ≠ (["A"; "B"; "F"; "G"], Some ["D"; "E"]).
Proof. vm_compute. discriminate. Qed.

Lemma fixup_no_wrapper parts ign :
  Forall (λ t, references_wrapper t = false) (strip_parts ign 0 parts) →
  fixup_build_command parts ign = (strip_parts ign 0 parts, None).
Proof.
  intros H. unfold fixup_build_command, unwrap_asm_processor.
  rewrite first_index_None by done. done.
Qed.

Lemma fixup_few_separators parts ign pre w rest :
  strip_parts ign 0 parts = pre ++ w :: rest →
  Forall (λ t, references_wrapper t = false) pre →
  references_wrapper w = true →
  length (filter (λ t, t = "--") rest) < 2 →
  fixup_build_command parts ign = (strip_parts ign 0 parts, None).
Proof.
  intros Hres Hpre Hw Hcount. unfold fixup_build_command, unwrap_asm_processor.
  rewrite Hres, first_index_app by done. simpl.
  destruct (decide ("--" ∈ rest)) as [Hin|Hnin].
  - apply list_elem_of_split_l in Hin as (mid & rest' & -> & Hmid).
    erewrite index_found; [|apply drop_after|done]. simpl.
    rewrite filter_app, filter_cons_True, length_app in Hcount by done.
    simpl in Hcount.
    assert ("--" ∉ rest') as Hrest'.
    { intros Hin.
      assert ("--" ∈ filter (λ t, t = "--") rest') as Hf by (by apply list_elem_of_filter).
      destruct (filter _ rest'); [by apply not_elem_of_nil in Hf|simpl in Hcount; lia]. }
    rewrite index_None; [done|].
    replace (length pre + 1 + length mid + 1)
      with (length (pre ++ w :: mid) + 1) by (rewrite length_app; simpl; lia).
    replace (pre ++ w :: mid ++ "--" :: rest')
      with ((pre ++ w :: mid) ++ "--" :: rest') by (rewrite <- app_assoc; done).
    rewrite drop_after. done.
  - rewrite index_None; [done|]. rewrite drop_after. done.
Qed.

Lemma fixup_empty_segment parts ign pre w mid post :
  wrapped (strip_parts ign 0 parts) pre w mid [] post →
  fixup_build_command parts ign = (mid ++ post, Some []).
Proof.
  intros H. unfold fixup_build_command. by rewrite (unwrap_wrapped _ _ _ _ _ _ H).
Qed.

Lemma strip_parts_elem ign k parts t :
  t ∈ strip_parts ign k parts → t ∈ parts ∧ t ≠ "-o" ∧ t ≠ "-MF" ∧ t ≠ ign.
Proof.
  revert k. induction parts as [|p parts IH]; intros k; simpl.
  - intros []%not_elem_of_nil.
  - destruct k as [|k].
    + unfold Py.mem. case_bool_decide as Hflag.
      { intros [? ?]%IH. split; [by right|done]. }
      case_bool_decide as Hign.
      { intros [? ?]%IH. split; [by right|done]. }
      intros [->|[? ?]%IH]%elem_of_cons.
      * split; [by left|]. split_and!; [intros ->; apply Hflag; repeat constructor..|done].
      * split; [by right|done].
    + intros [? ?]%IH. split; [by right|done].
Qed.

Lemma strip_parts_sublist ign k parts : strip_parts ign k parts `sublist_of` parts.
Proof.
  revert k. induction parts as [|p parts IH]; intros k; simpl; [constructor|].
  destruct k; [|by constructor].
  destruct (Py.mem p _); [by constructor|]. case_bool_decide; by constructor.
Qed.

Lemma strip_parts_app ign k pre post :
  strip_parts ign k (pre ++ post)
  = strip_parts ign k pre ++ strip_parts ign (skip_after k pre) post.
Proof.
  revert k. induction pre as [|p pre IH]; intros k; simpl; [done|].
  destruct k; [|done]. unfold is_flag.
  destruct (Py.mem p _); [done|]. case_bool_decide; [done|].
  simpl. by rewrite IH.
Qed.

Lemma skip_after_last k pre t :
  k ≤ 1 → last pre = Some t → is_flag t = false → skip_after k pre = 0.
Proof.
  revert k. induction pre as [|p pre IH]; intros k Hk Hlast Ht; [done|].
  destruct pre as [|p' pre].
  - simpl in *. simplify_eq. destruct k as [|[|]]; [by rewrite Ht|done|lia].
  - rewrite last_cons_cons in Hlast. remember (p' :: pre) as l eqn:Hl in *. simpl.
    destruct k; [destruct (is_flag p)|]; apply IH; try done; lia.
Qed.

Lemma strip_parts_flag_pair ign pre f v post :
  is_flag f = true → skip_after 0 pre = 0 →
  strip_parts ign 0 (pre ++ f :: v :: post)
  = strip_parts ign 0 pre ++ strip_parts ign 0 post.
Proof.
  intros Hf Hpre. rewrite strip_parts_app, Hpre. simpl.
  unfold is_flag in Hf. rewrite Hf. done.
Qed.

Lemma slice_drop_sublist {A} (l : list A) a b c :
  b ≤ c → Py.slice l a b ++ drop c l `sublist_of` l.
Proof.
  intros Hbc. unfold Py.slice.
  rewrite <- (take_drop b l) at 3.
  apply sublist_app.
  - destruct (decide (a ≤ b)) as [Hab|Hab].
    + rewrite take_drop_commute. replace (a + (b - a)) with b by lia. apply sublist_drop.
    + replace (b - a) with 0 by lia. apply sublist_nil_l.
  - replace c with (b + (c - b)) by lia. rewrite <- drop_drop. apply sublist_drop.
Qed.

Lemma unwrap_sublist res res' asm :
  unwrap_asm_processor res = Some (res', asm) → res' `sublist_of` res.
Proof.
  unfold unwrap_asm_processor. intros H.
  destruct (Py.first_index _ _) as [i0|]; simplify_eq/=.
  destruct (Py.index res "--" (i0 + 1)) as [i1|] eqn:H1; simplify_eq/=.
  destruct (Py.index res "--" (i1 + 1)) as [i2|] eqn:H2; simplify_eq/=.
  apply index_bounds in H2. apply slice_drop_sublist. lia.
Qed.

Lemma fixup_sublist parts ign :
  (fixup_build_command parts ign).1 `sublist_of` strip_parts ign 0 parts.
Proof.
  unfold fixup_build_command.
  destruct (unwrap_asm_processor _) as [[res' asm]|] eqn:H; simpl; [|done].
  by eapply unwrap_sublist.
Qed.

Lemma fixup_no_flags parts ign t :
  t ∈ (fixup_build_command parts ign).1 → t ∈ parts ∧ t ≠ "-o" ∧ t ≠ "-MF" ∧ t ≠ ign.
Proof.
  intros Ht. eapply strip_parts_elem, elem_of_sublist; [exact Ht|]. apply fixup_sublist.
Qed.

End Fixup.

(** ** [find_build_command_line] *)

Section ResolverProps.
Context (E : env) (rel : string).
Implicit Types (st : scan_state) (line : string) (trace : list string).

(** What one round of the loop does to [output] and [assembler]. *)
Lemma scan_line_ret st st' line :
  scan_line E rel st line = Ret st' →
  output st' = output st
      ++ match candidate E rel line with
         | Some parts => [(fixup_build_command parts rel).1]
         | None => []
         end
  ∧ assembler st' = match candidate E rel line with
                    | Some parts =>
                        pick_assembler (assembler st) (fixup_build_command parts rel).2
                    | None => assembler st
                    end.
Proof.
  unfold scan_line, candidate.
  destruct (normalize_line_total line) as [nline ->]. cbn [bind].
  destruct (Py.contains rel nline); cbn [negb].
  2:{ intros [= <-]. by rewrite app_nil_r. }
  destruct (shlex_split E nline) as [parts|]; [|done].
  destruct (Py.mem rel parts); cbn [negb andb].
  2:{ intros [= <-]. simpl. by rewrite app_nil_r. }
  destruct (Py.mem "-o" parts); cbn [negb andb].
  2:{ intros [= <-]. simpl. by rewrite app_nil_r. }
  destruct (Py.mem "-fsyntax-only" parts); cbn [negb andb].
  { intros [= <-]. simpl. by rewrite app_nil_r. }
  destruct (fixup_build_command parts rel) as [cmdline found].
  intros [= <-]. simpl. split; [done|]. by destruct found as [[|]|].
Qed.

Lemma scan_line_total st line :
  tokenizes E rel line → ∃ st', scan_line E rel st line = Ret st'.
Proof.
  intros Htok. unfold scan_line, tokenizes in *.
  destruct (normalize_line_total line) as [nline Hn]. rewrite Hn in *. cbn [bind].
  destruct (Py.contains rel nline) eqn:Hc; cbn [negb]; [|by eexists].
  destruct (Htok nline eq_refl Hc) as [parts ->].
  repeat (match goal with |- context [Py.mem ?x ?l] => destruct (Py.mem x l) end;
          cbn [negb]; try by eexists).
  destruct (fixup_build_command parts rel). by eexists.
Qed.

Lemma scan_trace_ret st st' trace :
  for_each (scan_line E rel) st trace = Ret st' →
  output st' = output st
      ++ ((λ parts, (fixup_build_command parts rel).1) <$> omap (candidate E rel) trace)
  ∧ assembler st' =
      foldl pick_assembler (assembler st)
        ((λ parts, (fixup_build_command parts rel).2) <$> omap (candidate E rel) trace).
Proof.
  revert st. induction trace as [|line trace IH]; intros st; cbn [for_each].
  - intros [= <-]. simpl. by rewrite app_nil_r.
  - destruct (scan_line E rel st line) as [st1| | |] eqn:Hst1; try done. cbn [bind].
    intros [Hout' Hasm']%IH. apply scan_line_ret in Hst1 as [Hout Hasm].
    rewrite Hout', Hasm', Hout, Hasm. cbn [omap list_omap].
    destruct (candidate E rel line); simpl; rewrite <- ?app_assoc, ?app_nil_r; done.
Qed.

Lemma scan_trace_total st trace :
  Forall (tokenizes E rel) trace → ∃ st', for_each (scan_line E rel) st trace = Ret st'.
Proof.
  intros Htok. revert st. induction Htok as [|line trace Hl _ IH]; intros st.
  - by exists st.
  - destruct (scan_line_total st line Hl) as [st1 Hst1].
    cbn [for_each]. rewrite Hst1. apply IH.
Qed.

Lemma scan_trace st trace :
  Forall (tokenizes E rel) trace →
  ∃ st', for_each (scan_line E rel) st trace = Ret st'
    ∧ output st' = output st
        ++ ((λ parts, (fixup_build_command parts rel).1) <$> omap (candidate E rel) trace)
    ∧ assembler st' =
        foldl pick_assembler (assembler st)
          ((λ parts, (fixup_build_command parts rel).2) <$> omap (candidate E rel) trace).
Proof.
  intros Htok. destruct (scan_trace_total st trace Htok) as [st' Hst'].
  exists st'. split; [done|]. by apply scan_trace_ret.
Qed.

(** The result of [select_build_command] comes from the only candidate. *)
Lemma select_build_command_ret make_flags trace cmdline asm :
  select_build_command E rel make_flags trace = Ret (cmdline, asm) →
  ∃ parts, omap (candidate E rel) trace = [parts]
    ∧ cmdline = (fixup_build_command parts rel).1
    ∧ asm = pick_assembler DEFAULT_AS_CMDLINE (fixup_build_command parts rel).2.
Proof.
  unfold select_build_command.
  destruct (for_each _ _ _) as [st| | |] eqn:Hst; try done. cbn [bind].
  apply scan_trace_ret in Hst as [Hout Hasm]. simpl in Hout, Hasm.
  rewrite Hout, Hasm.
  destruct (omap (candidate E rel) trace) as [|parts [|parts' cands]]; simpl; try done.
  intros [= <- <-]. by exists parts.
Qed.

(** C3 (amended).  When [shlex.split] accepts every line that the loop
    splits, the lines that are kept are those whose normalised text
    contains the manifest-relative path and whose tokens contain that
    path and [-o] and no [-fsyntax-only].  With no such line the run
    ends with the diagnostic that the compile command was not found;
    with exactly one, what [fixup_build_command] makes of its tokens is
    returned; with two or more, no result is returned. *)
Theorem select_build_command_unique make_flags trace :
  Forall (tokenizes E rel) trace →
  match omap (candidate E rel) trace with
  | [] =>
      ∃ msg, select_build_command E rel make_flags trace = Exit msg
        ∧ Py.startswith msg "Failed to find compile command" = true
  | [parts] =>
      select_build_command E rel make_flags trace
      = Ret ((fixup_build_command parts rel).1,
             pick_assembler DEFAULT_AS_CMDLINE (fixup_build_command parts rel).2)
  | _ :: _ :: _ => ∀ r, select_build_command E rel make_flags trace ≠ Ret r
  end.
Proof.
  intros Htok. unfold select_build_command.
  destruct (scan_trace {| output := []; close_match := false;
                          assembler := DEFAULT_AS_CMDLINE |} trace Htok)
    as (st & -> & Hout & Hasm).
  cbn [bind]. rewrite Hout. simpl in Hasm. rewrite Hasm.
  destruct (omap (candidate E rel) trace) as [|parts [|parts' cands]]; simpl.
  - eexists. split; [done|]. done.
  - done.
  - intros r. done.
Qed.

(** With two candidates or more the run ends in the TypeError of
    [str.join], before the diagnostic is printed. *)
Lemma select_build_command_ambiguous make_flags trace parts parts' cands :
  Forall (tokenizes E rel) trace →
  omap (candidate E rel) trace = parts :: parts' :: cands →
  select_build_command E rel make_flags trace = Raise TypeError.
Proof.
  intros Htok Hc. unfold select_build_command.
  destruct (scan_trace {| output := []; close_match := false;
                          assembler := DEFAULT_AS_CMDLINE |} trace Htok)
    as (st & -> & Hout & Hasm).
  cbn [bind]. rewrite Hout, Hc. done.
Qed.

End ResolverProps.

Lemma plain_split_tokenizes cwd files tools rel line :
  tokenizes (Sample.make_env cwd files tools) rel line.
Proof. intros nline _ _. by eexists. Qed.

Lemma plain_split_trace cwd files tools rel trace :
  Forall (tokenizes (Sample.make_env cwd files tools) rel) trace.
Proof. apply Forall_forall. intros line _. apply plain_split_tokenizes. Qed.

Lemma select_build_command_unique_witness :
  select_build_command (Sample.make_env "/proj" [] (Sample.make_prints ""))
    "src/foo.c" ["PERMUTER=1"]
    ["make: Entering directory '/proj'";
     "cc -c -O2 -MF build/foo.d src//./foo.c -o build/foo.o";
     "cc -fsyntax-only src/foo.c -o /dev/null"]
  = Ret (["cc"; "-c"; "-O2"], DEFAULT_AS_CMDLINE).
Proof.
  exact (select_build_command_unique _ "src/foo.c" ["PERMUTER=1"] _
           (plain_split_trace "/proj" [] (Sample.make_prints "") "src/foo.c"
              ["make: Entering directory '/proj'";
               "cc -c -O2 -MF build/foo.d src//./foo.c -o build/foo.o";
               "cc -fsyntax-only src/foo.c -o /dev/null"])).
Defined.

(** The tokens returned for a wrapped line are not the tokens of the line
    without its flag pairs, with or without the source path. *)
Lemma select_build_command_wrapped_counterexample :
  let E := Sample.make_env "/proj" [] (Sample.make_prints "") in
  let line := "python3 tools/asm-processor/build.py cc -- as -march=vr4300 -- -c -O2 src/foo.c -o build/foo.o" in
  ∃ parts,
    omap (candidate E "src/foo.c") [line] = [parts]
    ∧ select_build_command E "src/foo.c" ["PERMUTER=1"] [line]
      = Ret (["cc"; "-c"; "-O2"], ["as"; "-march=vr4300"])
    ∧ ["cc"; "-c"; "-O2"] ≠ drop_flag_pairs parts
    ∧ ["cc"; "-c"; "-O2"] ≠ strip_parts "src/foo.c" 0 parts.
Proof.
  eexists. split; [vm_compute; reflexivity|]. split; [vm_compute; reflexivity|].
  split; vm_compute; discriminate.
Qed.

Lemma select_build_command_two_lines :
  select_build_command (Sample.make_env "/proj" [] (Sample.make_prints ""))
    "src/foo.c" ["PERMUTER=1"]
    ["cc -c src/foo.c -o build/foo.o"; "cc -c -g src/foo.c -o build/debug/foo.o"]
  = Raise TypeError.
Proof. vm_compute. reflexivity. Qed.

Section ResolverClaims.
Context (E : env) (rel : string).

(** C4 (amended).  The token list that resolution returns comes from the
    one candidate line; it holds no [-o], no [-MF] and no token equal to
    the manifest-relative path, and for every [-o] or [-MF] of the line
    that is not itself taken as the value of a flag before it, neither
    that token nor the one after it is part of the result.  The compile
    script ends its command with a new [-o]. *)
Theorem compile_invocation_stripped make_flags trace cmdline asm :
  select_build_command E rel make_flags trace = Ret (cmdline, asm) →
  ∃ line parts,
    line ∈ trace ∧ candidate E rel line = Some parts
    ∧ cmdline = (fixup_build_command parts rel).1
    ∧ ("-o" ∉ cmdline) ∧ ("-MF" ∉ cmdline) ∧ (rel ∉ cmdline)
    ∧ (∀ pre f v post,
         parts = pre ++ f :: v :: post → is_flag f = true → skip_after 0 pre = 0 →
         cmdline `sublist_of` pre ++ post)
    ∧ (∀ cwd, ∃ head,
         write_compile_command E cmdline cwd
         = head +:+ formatcmd E cmdline
           +:+ " " +:+ dq +:+ "$INPUT" +:+ dq +:+ " -o " +:+ dq +:+ "$OUTPUT" +:+ dq +:+ nl).
Proof.
  intros (parts & Hc & -> & _)%select_build_command_ret.
  assert (parts ∈ omap (candidate E rel) trace) as Hin by (rewrite Hc; by left).
  apply list_elem_of_omap in Hin as (line & Hline & Hcand).
  exists line, parts. split_and!; try done.
  - by intros (_ & ? & _)%fixup_no_flags.
  - by intros (_ & _ & ? & _)%fixup_no_flags.
  - by intros (_ & _ & _ & ?)%fixup_no_flags.
  - intros pre f v post -> Hf Hpre.
    etrans; [apply fixup_sublist|]. rewrite strip_parts_flag_pair by done.
    apply sublist_app; apply strip_parts_sublist.
  - intros cwd. unfold write_compile_command. eexists.
    rewrite <- !str_app_assoc. reflexivity.
Qed.

(** C10 (amended).  When no token refers to the wrapper, or fewer than
    two separators follow the first such token, [fixup_build_command]
    returns the list left by the first loop and no assembler; when
    nothing stands between the two separators, the wrapper is still
    taken off and the assembler is the empty list.  In each case the
    resolver keeps the default assembler. *)
Theorem incomplete_wrapper_keeps_default make_flags trace :
  (∀ parts r a,
     incomplete (strip_parts rel 0 parts) r a → fixup_build_command parts rel = (r, a))
  ∧ ((∀ line parts, line ∈ trace → candidate E rel line = Some parts →
        ∃ r a, incomplete (strip_parts rel 0 parts) r a) →
     ∀ cmdline asm,
       select_build_command E rel make_flags trace = Ret (cmdline, asm) →
       asm = DEFAULT_AS_CMDLINE).
Proof.
  assert (∀ parts r a,
    incomplete (strip_parts rel 0 parts) r a → fixup_build_command parts rel = (r, a))
    as Hfix.
  { intros parts r a [H|pre w rest H1 H2 H3 H4|pre w mid post H].
    - by apply fixup_no_wrapper.
    - by eapply fixup_few_separators.
    - by eapply fixup_empty_segment. }
  split; [done|].
  intros Hinc cmdline asm (parts & Hc & _ & ->)%select_build_command_ret.
  assert (parts ∈ omap (candidate E rel) trace) as Hin by (rewrite Hc; by left).
  apply list_elem_of_omap in Hin as (line & Hline & Hcand).
  destruct (Hinc line parts Hline Hcand) as (r & a & Hi).
  rewrite (Hfix _ _ _ Hi). by destruct Hi.
Qed.

End ResolverClaims.

Lemma compile_invocation_stripped_witness :
  ("-o" ∉ ["cc"; "-c"; "-O2"]) ∧ ("src/foo.c" ∉ ["cc"; "-c"; "-O2"]).
Proof.
  destruct (compile_invocation_stripped
              (Sample.make_env "/proj" [] (Sample.make_prints "")) "src/foo.c"
              ["PERMUTER=1"]
              ["cc -c -O2 -MF build/foo.d src/foo.c -o build/foo.o"]
              ["cc"; "-c"; "-O2"] DEFAULT_AS_CMDLINE)
    as (line & parts & _ & _ & _ & Ho & _ & Hrel & _).
  - vm_compute. reflexivity.
  - split; assumption.
Defined.

(** A token that stands right after an [-o] which is itself the value
    of the preceding [-o] is kept. *)
Lemma compile_invocation_counterexample :
  let E := Sample.make_env "/proj" [] (Sample.make_prints "") in
  let line := "cc -o -o x.o -c src/foo.c" in
  ∃ parts cmdline asm,
    shlex_split E line = Some parts
    ∧ select_build_command E "src/foo.c" ["PERMUTER=1"] [line] = Ret (cmdline, asm)
    ∧ parts !! 2 = Some "-o" ∧ parts !! 3 = Some "x.o" ∧ "x.o" ∈ cmdline.
Proof.
  eexists _, _, _. split; [vm_compute; reflexivity|].
  split; [vm_compute; reflexivity|].
  split; [reflexivity|]. split; [reflexivity|].
  apply (bool_decide_unpack _). vm_compute. exact I.
Qed.

Lemma incomplete_wrapper_keeps_default_witness :
  (∀ line parts,
     line ∈ ["python3 tools/asm-processor/build.py cc -- -- -c src/foo.c -o build/foo.o"] →
     candidate (Sample.make_env "/proj" [] (Sample.make_prints "")) "src/foo.c" line
     = Some parts →
     ∃ r a, incomplete (strip_parts "src/foo.c" 0 parts) r a)
  ∧ ∃ cmdline,
      select_build_command (Sample.make_env "/proj" [] (Sample.make_prints ""))
        "src/foo.c" ["PERMUTER=1"]
        ["python3 tools/asm-processor/build.py cc -- -- -c src/foo.c -o build/foo.o"]
      = Ret (cmdline, DEFAULT_AS_CMDLINE).
Proof.
  assert (∀ line parts,
     line ∈ ["python3 tools/asm-processor/build.py cc -- -- -c src/foo.c -o build/foo.o"] →
     candidate (Sample.make_env "/proj" [] (Sample.make_prints "")) "src/foo.c" line
     = Some parts →
     ∃ r a, incomplete (strip_parts "src/foo.c" 0 parts) r a) as Hinc.
  { intros line parts ->%list_elem_of_singleton. vm_compute. intros [= <-].
    exists (["cc"] ++ ["-c"]), (Some []).
    apply (empty_segment _ ["python3"] "tools/asm-processor/build.py" ["cc"] ["-c"]).
    unfold wrapped. split; [reflexivity|].
    split; [repeat constructor|]. split; [vm_compute; reflexivity|].
    split; apply (bool_decide_unpack _); vm_compute; exact I. }
  split; [exact Hinc|].
  destruct (select_build_command (Sample.make_env "/proj" [] (Sample.make_prints ""))
              "src/foo.c" ["PERMUTER=1"]
              ["python3 tools/asm-processor/build.py cc -- -- -c src/foo.c -o build/foo.o"])
    as [[cmdline asm]| | |] eqn:Hsel; try (vm_compute in Hsel; discriminate).
  exists cmdline. f_equal. f_equal.
  exact (proj2 (incomplete_wrapper_keeps_default _ _ _ _) Hinc cmdline asm Hsel).
Defined.

(** With nothing between the two separators the wrapper is still taken
    off, and an empty assembler is reported rather than none. *)
Lemma fixup_empty_segment_counterexample :
  let parts := ["python3"; "tools/asm-processor/build.py"; "cc"; "--"; "--";
                "-c"; "src/foo.c"; "-o"; "build/foo.o"] in
  fixup_build_command parts "src/foo.c" = (["cc"; "-c"], Some [])
  ∧ fixup_build_command parts "src/foo.c" ≠ (strip_parts "src/foo.c" 0 parts, None).
Proof. split; vm_compute; [reflexivity|discriminate]. Qed.

(** ** [find_makefile_dir] *)

Section Makefile.
Context (E : env).
Implicit Types (filename dirname : string) (old : option string).

(** The loop ends within its budget. *)
Lemma find_makefile_loop_total fuel filename old dirname :
  String.length dirname < fuel →
  find_makefile_loop E fuel filename old dirname ≠ OutOfFuel.
Proof.
  revert old dirname. induction fuel as [|fuel IH]; intros old dirname Hf; [lia|].
  cbn [find_makefile_loop].
  destruct (negb (bool_decide (dirname = "")) && _) eqn:Hcond; [|done].
  destruct (has_makefile E dirname); [done|].
  apply andb_true_iff in Hcond as [Hne%negb_true_iff%bool_decide_eq_false _].
  assert (0 < String.length dirname) by (destruct dirname; [done|simpl; lia]).
  destruct (decide (String.length (PosixPath.dirname dirname) < fuel)) as [Hlt|Hge].
  { by apply IH. }
  destruct fuel as [|fuel]; [lia|]. cbn [find_makefile_loop falsy default id].
  rewrite (bool_decide_eq_false_2 (dirname = "")) by done.
  replace (String.length (PosixPath.dirname dirname) <? String.length dirname)
    with false by (symmetry; apply Nat.ltb_ge; lia).
  cbn [orb]. by rewrite andb_false_r.
Qed.

Lemma find_makefile_dir_total filename : find_makefile_dir E filename ≠ OutOfFuel.
Proof. unfold find_makefile_dir. apply find_makefile_loop_total. lia. Qed.

(** Going up [k] levels from [dirname], the loop returns the first
    directory that holds a makefile. *)
Lemma find_makefile_loop_first k fuel filename old dirname :
  String.length dirname < fuel →
  (falsy old = true ∨ String.length dirname < String.length (default "" old)) →
  (∀ j, j ≤ k → ancestor j dirname ≠ "") →
  (∀ j, j < k →
     String.length (ancestor (S j) dirname) < String.length (ancestor j dirname)) →
  (∀ j, j < k → has_makefile E (ancestor j dirname) = false) →
  has_makefile E (ancestor k dirname) = true →
  find_makefile_loop E fuel filename old dirname = Ret (ancestor k dirname).
Proof.
  revert fuel old dirname.
  induction k as [|k IH]; intros fuel old dirname Hf Hold Hne Hlen Hno Hyes.
  - destruct fuel; [lia|]. cbn [find_makefile_loop].
    specialize (Hne 0 (le_n _)). simpl in Hne, Hyes.
    rewrite (bool_decide_eq_false_2 (dirname = "")) by done. cbn [negb andb].
    replace (falsy old || _) with true; [by rewrite Hyes|].
    symmetry. apply orb_true_iff. destruct Hold as [?|?]; [by left|right].
    by apply Nat.ltb_lt.
  - destruct fuel; [lia|]. cbn [find_makefile_loop].
    pose proof (Hne 0 ltac:(lia)) as Hne0. simpl in Hne0.
    rewrite (bool_decide_eq_false_2 (dirname = "")) by done. cbn [negb andb].
    replace (falsy old || _) with true.
    2:{ symmetry. apply orb_true_iff. destruct Hold as [?|?]; [by left|right].
        by apply Nat.ltb_lt. }
    pose proof (Hno 0 ltac:(lia)) as Hno0. simpl in Hno0. rewrite Hno0.
    assert (∀ j, ancestor (S j) dirname = ancestor j (PosixPath.dirname dirname)) as Hanc.
    { intros j. unfold ancestor. induction j as [|j IHj]; [done|]. simpl in *. by rewrite IHj. }
    rewrite Hanc. pose proof (Hlen 0 ltac:(lia)) as Hlen0. rewrite Hanc in Hlen0. simpl in Hlen0.
    apply IH.
    + lia.
    + right. done.
    + intros j Hj. rewrite <- Hanc. apply Hne. lia.
    + intros j Hj. rewrite <- !Hanc. apply Hlen. lia.
    + intros j Hj. rewrite <- Hanc. apply Hno. lia.
    + by rewrite <- Hanc.
Qed.

(** Called on a file, [find_makefile_dir] starts with the directory of
    the file. *)
Lemma find_makefile_dir_first filename k :
  let dirname := PosixPath.abspath (getcwd E) (PosixPath.dirname filename) in
  (∀ j, j ≤ k → ancestor j dirname ≠ "") →
  (∀ j, j < k →
     String.length (ancestor (S j) dirname) < String.length (ancestor j dirname)) →
  (∀ j, j < k → has_makefile E (ancestor j dirname) = false) →
  has_makefile E (ancestor k dirname) = true →
  find_makefile_dir E filename = Ret (ancestor k dirname).
Proof.
  intros dirname Hne Hlen Hno Hyes. subst dirname. unfold find_makefile_dir.
  apply find_makefile_loop_first; [lia|by left|done..].
Qed.

End Makefile.

(** C2.  [find_makefile_dir] starts at the directory of the path that it
    is given, and [find_build_command_line] gives it the directory of
    the source file, not the file: for a source file whose own directory
    is the only one with a makefile, the search starts one level too
    high and the run ends with the missing-makefile diagnostic. *)
Theorem find_build_command_line_skips_source_directory :
  let E := Sample.make_env "/proj" ["/proj/src/Makefile"]
             (Sample.make_prints "cc -c foo.c -o foo.o") in
  find_makefile_dir E "/proj/src/foo.c" = Ret "/proj/src"
  ∧ find_build_command_line E "/proj/src/foo.c" ["PERMUTER=1"]
    = Exit "Missing makefile for file /proj/src!".
Proof. split; vm_compute; reflexivity. Qed.

(** ** [parse_asm] *)

Section Words.
Implicit Types (s w rest : string) (c : ascii).

Lemma split_ws_cons_nonblank c s :
  Py.is_space c = false → Py.split_ws (String c s) ≠ [].
Proof.
  intros Hc. cbn [Py.split_ws]. rewrite Hc.
  destruct s as [|d s]; [done|]. destruct (Py.is_space d); [done|].
  by destruct (Py.split_ws (String d s)).
Qed.

(** A word that a blank or the end of the text follows is the first
    field. *)
Lemma split_ws_word w rest :
  w ≠ "" → nonblank w = true → ends_word rest = true →
  Py.split_ws (w +:+ rest) = w :: Py.split_ws rest.
Proof.
  intros Hw Hnb Hrest. induction w as [|c w IH]; [done|].
  cbn [nonblank] in Hnb. apply andb_true_iff in Hnb as [Hc%negb_true_iff Hnb].
  rewrite str_app_cons. cbn [Py.split_ws]. rewrite Hc.
  destruct w as [|d w].
  - rewrite str_app_nil_l. destruct rest as [|e rest]; [done|].
    cbn [ends_word] in Hrest. by rewrite Hrest.
  - rewrite str_app_cons. rewrite str_app_cons in IH.
    cbn [nonblank] in Hnb. apply andb_true_iff in Hnb as [Hd%negb_true_iff Hnb'].
    rewrite Hd, IH; [done|done|]. cbn [nonblank]. by rewrite Hd.
Qed.

Lemma split_ws_lstrip s : Py.split_ws (Py.lstrip s) = Py.split_ws s.
Proof.
  induction s as [|c s IH]; [done|]. cbn [Py.lstrip].
  destruct (Py.is_space c) eqn:Hc; [|done]. rewrite IH. cbn [Py.split_ws]. by rewrite Hc.
Qed.

Lemma split_ws_nil_rstrip s : Py.split_ws s = [] → Py.rstrip s = "".
Proof.
  induction s as [|c s IH]; [done|]. intros H.
  destruct (Py.is_space c) eqn:Hc.
  - cbn [Py.split_ws] in H. rewrite Hc in H. cbn [Py.rstrip].
    rewrite Hc, (IH H). done.
  - by apply split_ws_cons_nonblank in H.
Qed.

Lemma rstrip_cons c s :
  Py.rstrip (String c s) ≠ "" → Py.rstrip (String c s) = String c (Py.rstrip s).
Proof. cbn [Py.rstrip]. by destruct (Py.is_space c && _). Qed.

Lemma rstrip_startswith_cons s a p :
  Py.startswith (Py.rstrip s) (String a p) = true →
  ∃ s', s = String a s' ∧ Py.rstrip s = String a (Py.rstrip s')
        ∧ Py.startswith (Py.rstrip s') p = true.
Proof.
  destruct s as [|c s]; [done|]. intros H.
  assert (Py.rstrip (String c s) ≠ "") as Hne by (intros Heq; by rewrite Heq in H).
  rewrite (rstrip_cons _ _ Hne) in H. cbn [Py.startswith] in H.
  apply andb_true_iff in H as [->%bool_decide_eq_true H].
  exists s. by rewrite (rstrip_cons _ _ Hne).
Qed.


(** The test for [glabel] leaves a name to take. *)
Lemma glabel_has_name line :
  is_glabel line = true → ∃ name, Py.split_ws line !! 1 = Some name.
Proof.
  unfold is_glabel, Py.strip. rewrite <- (split_ws_lstrip line).
  generalize (Py.lstrip line). clear line. intros s H.
  do 6 (apply rstrip_startswith_cons in H as (? & -> & _ & H)).
  apply rstrip_startswith_cons in H as (r & -> & Hr & _).
  assert (Py.rstrip r ≠ "") as Hne.
  { intros Heq. cbn [Py.rstrip] in Hr. rewrite Heq in Hr. done. }
  change (String "g" (String "l" (String "a" (String "b" (String "e"
            (String "l" (String " " r)))))))
    with ("glabel" +:+ String " " r).
  rewrite split_ws_word by done.
  change (Py.split_ws (String " " r)) with (Py.split_ws r).
  destruct (Py.split_ws r) as [|name ws] eqn:Hws; [by apply split_ws_nil_rstrip in Hws|].
  by exists name.
Qed.



End Words.

Section ParseAsm.
Implicit Types (st : asm_state) (line cur : string) (lines : list string).

Lemma next_section_well_formed cur line :
  well_formed line → next_section cur line = Ret (section_of cur line).
Proof.
  unfold well_formed, section_of, next_section, item. intros Hwf.
  destruct (Py.startswith (Py.strip line) ".section"); [|by destruct (Py.mem _ _)].
  by destruct (Hwf eq_refl) as [s ->].
Qed.

Lemma first_glabel_cons line lines :
  first_glabel (line :: lines)
  = if is_glabel line then Py.split_ws line !! 1 else first_glabel lines.
Proof.
  unfold first_glabel. rewrite filter_cons.
  destruct (is_glabel line) eqn:Hg.
  - by rewrite decide_True.
  - by rewrite decide_False.
Qed.

(** The state after the loop, from any state. *)
Lemma parse_asm_loop st lines :
  Forall well_formed lines →
  for_each parse_asm_line st lines
  = Ret {| func_name := match func_name st with
                        | Some n => Some n
                        | None => first_glabel (text_lines (cur_section st) lines)
                        end;
           asm_lines := asm_lines st ++ text_lines (cur_section st) lines;
           cur_section := foldl section_of (cur_section st) lines |}.
Proof.
  intros Hwf. revert st. induction Hwf as [|line lines Hl _ IH]; intros [fn al cur].
  - cbn. rewrite app_nil_r. by destruct fn.
  - cbn [for_each]. unfold parse_asm_line at 1. cbn [cur_section func_name asm_lines].
    rewrite (next_section_well_formed _ _ Hl). cbn [bind text_lines foldl].
    case_bool_decide as Htext.
    + destruct fn as [n|]; cbn [bind].
      * rewrite IH. cbn. by rewrite <- app_assoc.
      * fold (is_glabel line). rewrite first_glabel_cons.
        destruct (is_glabel line) eqn:Hg.
        -- destruct (glabel_has_name line Hg) as [n Hn]. unfold item. rewrite Hn.
           cbn [bind]. rewrite IH. cbn. by rewrite <- app_assoc.
        -- cbn [bind]. rewrite IH. cbn. by rewrite <- app_assoc.
    + cbn [bind]. rewrite IH. cbn. done.
Qed.

(** [parse_asm] on a file with well-formed section directives. *)
Lemma parse_asm_lines_spec lines :
  Forall well_formed lines →
  parse_asm_lines lines
  = match first_glabel (text_lines ".text" lines) with
    | None =>
        Exit ("Missing function name in assembly file! "
              +:+ "The file should start with 'glabel function_name'.")
    | Some name =>
        if valid_func_name name then Ret (name, Py.join "" (text_lines ".text" lines))
        else Exit ("Bad function name: " +:+ name)
    end.
Proof.
  intros Hwf. unfold parse_asm_lines. rewrite parse_asm_loop by done. done.
Qed.

Lemma first_glabel_app before line after :
  Forall (λ l, is_glabel l = false) before → is_glabel line = true →
  first_glabel (before ++ line :: after) = Py.split_ws line !! 1.
Proof.
  intros Hb Hg. induction Hb as [|l before Hl _ IH]; cbn [app].
  - by rewrite first_glabel_cons, Hg.
  - by rewrite first_glabel_cons, Hl.
Qed.


End ParseAsm.


(** ** The sentinel rewrite and its recovery *)

Section Sentinel.
Implicit Types (s p name rest line : string) (c sep : ascii) (expand : gset string).

Lemma is_ident_nonblank c : Py.is_ident c = true → Py.is_space c = false.
Proof. destruct c as [[] [] [] [] [] [] [] []]; vm_compute; congruence. Qed.

Lemma is_ident_not_paren c : Py.is_ident c = true → c ≠ "("%char.
Proof. intros H ->. vm_compute in H. done. Qed.

Lemma all_ident_nonblank s : all_ident s = true → nonblank s = true.
Proof.
  induction s as [|c s IH]; [done|]. cbn [all_ident nonblank].
  intros [Hc Hs]%andb_true_iff. by rewrite (is_ident_nonblank _ Hc), IH.
Qed.

Lemma span_ident_name name rest :
  all_ident name = true →
  Py.span_ident (name +:+ String "(" rest) = (name, String "(" rest).
Proof.
  induction name as [|c name IH]; [done|]. cbn [all_ident].
  intros [Hc Hs]%andb_true_iff. rewrite str_app_cons. cbn [Py.span_ident].
  by rewrite Hc, IH.
Qed.


Lemma define_match_name name rest :
  name ≠ "" → all_ident name = true →
  define_match ("#define " +:+ name +:+ "(" +:+ rest) = Some (name, rest).
Proof.
  intros Hne Hid. unfold define_match. rewrite startswith_app.
  change (Py.skip 8 ("#define " +:+ name +:+ "(" +:+ rest)) with (name +:+ String "(" rest).
  rewrite span_ident_name by done. cbn. by rewrite bool_decide_eq_false_2.
Qed.


Lemma lacks_app sep s t : lacks sep (s +:+ t) = lacks sep s && lacks sep t.
Proof.
  induction s as [|c s IH]; [done|]. rewrite str_app_cons. cbn [lacks].
  by rewrite IH, andb_assoc.
Qed.

Lemma all_ident_lacks_paren s : all_ident s = true → lacks "(" s = true.
Proof.
  induction s as [|c s IH]; [done|]. cbn [all_ident lacks].
  intros [Hc Hs]%andb_true_iff. rewrite (IH Hs), andb_true_r.
  apply negb_true_iff, bool_decide_eq_false. by apply is_ident_not_paren.
Qed.

Lemma split_once_app sep p rest :
  lacks sep p = true → Py.split_once sep (p +:+ String sep rest) = Some (p, rest).
Proof.
  induction p as [|c p IH]; cbn [lacks].
  - intros _. rewrite str_app_nil_l. cbn [Py.split_once].
    by rewrite bool_decide_eq_true_2.
  - intros [Hc%negb_true_iff Hp]%andb_true_iff. rewrite str_app_cons.
    cbn [Py.split_once]. by rewrite Hc, IH.
Qed.

(** The recovery step on a hidden definition. *)
Lemma recover_sentinel st name rest :
  name ≠ "" → all_ident name = true →
  recover_line st ("_permuter define " +:+ name +:+ "(" +:+ rest)
  = Ret {| late_defines := late_defines st ++ [(name, rest)];
           lines := lines st;
           graph := graph st
             ++ ((λ name2, (name, name2))
                   <$> reg_calls ("_permuter define " +:+ name +:+ "(" +:+ rest)) |}.
Proof.
  intros Hne Hid. unfold recover_line. rewrite startswith_app.
  replace ("_permuter define " +:+ name +:+ "(" +:+ rest)
    with (("_permuter define " +:+ name) +:+ String "(" rest)
    by (by rewrite str_app_assoc).
  rewrite split_once_app.
  2:{ rewrite lacks_app, (all_ident_lacks_paren name) by done. reflexivity. }
  assert (Py.split_ws ("_permuter define " +:+ name) = ["_permuter"; "define"; name])
    as ->.
  { change ("_permuter define " +:+ name)
      with ("_permuter" +:+ String " " ("define" +:+ String " " name)).
    rewrite split_ws_word by done.
    change (Py.split_ws (String " " ?s)) with (Py.split_ws s).
    rewrite split_ws_word by done.
    change (Py.split_ws (String " " ?s)) with (Py.split_ws s).
    rewrite <- (str_app_nil_r name) at 1.
    by rewrite split_ws_word by (try done; by apply all_ident_nonblank). }
  done.
Qed.

(** C8.  For a definition line [#define NAME(rest] whose name is not in
    the expand-set, the rewrite gives [_permuter define NAME(rest], a
    line that is no directive and no definition for the preprocessor,
    and the recovery step reads the pair [(NAME, rest)] back from it. *)
Theorem sentinel_round_trip expand st name rest :
  name ≠ "" → all_ident name = true → name ∉ expand →
  let hidden := rewrite_define expand ("#define " +:+ name +:+ "(" +:+ rest) in
  hidden = "_permuter define " +:+ name +:+ "(" +:+ rest
  ∧ is_directive hidden = false
  ∧ define_match hidden = None
  ∧ ∃ st', recover_line st hidden = Ret st'
      ∧ late_defines st' = late_defines st ++ [(name, rest)]
      ∧ lines st' = lines st.
Proof.
  intros Hne Hid Hex hidden.
  assert (hidden = "_permuter define " +:+ name +:+ "(" +:+ rest) as ->.
  { unfold hidden, rewrite_define, repl. rewrite define_match_name by done.
    rewrite bool_decide_eq_false_2 by done. by rewrite !str_app_assoc. }
  split; [done|]. split; [done|]. split; [done|].
  eexists. split; [by apply recover_sentinel|]. done.
Qed.

End Sentinel.

Lemma sentinel_round_trip_witness :
  rewrite_define {["TOP"]} "#define ADD(a,b) ((a)+(b))" = "_permuter define ADD(a,b) ((a)+(b))"
  ∧ ∃ st', recover_line {| late_defines := []; lines := []; graph := [] |}
             (rewrite_define {["TOP"]} "#define ADD(a,b) ((a)+(b))") = Ret st'
      ∧ late_defines st' = [("ADD", "a,b) ((a)+(b))")].
Proof.
  destruct (sentinel_round_trip {["TOP"]} {| late_defines := []; lines := []; graph := [] |}
              "ADD" "a,b) ((a)+(b))") as (H1 & _ & _ & st' & H2 & H3 & _).
  - done.
  - reflexivity.
  - apply (bool_decide_unpack _). vm_compute. exact I.
  - split; [exact H1|]. exists st'. split; [exact H2|exact H3].
Defined.

(** ** Lines of a text *)

Section Lines.
Implicit Types (s line : string) (ls : list string) (sep : ascii).

Lemma split_cons sep s : ∃ l ls, Py.split sep s = l :: ls.
Proof.
  induction s as [|c s (l & ls & IH)]; cbn [Py.split]; [by eexists _, _|].
  case_bool_decide; [by eexists _, _|]. rewrite IH. by eexists _, _.
Qed.










End Lines.

(** ** Classification and recovery *)

Section Classification.
Implicit Types (st : recover_state) (line name rest source : string) (ls : list string).





Lemma recover_line_ret st st' line :
  recover_line st line = Ret st' →
  late_defines st' = late_defines st ++ option_list (late_define_of line)
  ∧ lines st' = lines st
      ++ (if Py.startswith line "_permuter define " then [] else [line])
  ∧ graph st' = graph st ++ ((λ name2, (context_of line, name2)) <$> reg_calls line).
Proof.
  unfold recover_line, context_of, late_define_of, item.
  destruct (Py.startswith line "_permuter define ").
  - destruct (Py.split_once _ _) as [[before after]|]; [|done]. cbn [fst snd mbind option_bind].
    destruct (Py.split_ws before !! 2) as [n|]; [|done].
    cbn. intros [= <-]. cbn. by rewrite app_nil_r.
  - cbn. intros [= <-]. cbn. by rewrite app_nil_r.
Qed.

Lemma recover_loop_ret st st' ls :
  for_each recover_line st ls = Ret st' →
  late_defines st' = late_defines st ++ omap late_define_of ls
  ∧ lines st' = lines st
      ++ filter (λ line, Py.startswith line "_permuter define " = false) ls
  ∧ graph st' = graph st
      ++ (ls ≫= λ line, (λ name2, (context_of line, name2)) <$> reg_calls line).
Proof.
  revert st. induction ls as [|line ls IH]; intros st; cbn [for_each].
  - intros [= <-]. cbn. by rewrite !app_nil_r.
  - destruct (recover_line st line) as [st1| | |] eqn:H1; try done. cbn [bind].
    intros (Hd & Hl & Hg)%IH. apply recover_line_ret in H1 as (Hd1 & Hl1 & Hg1).
    rewrite Hd, Hl, Hg, Hd1, Hl1, Hg1. cbn [omap list_omap mbind list_bind].
    rewrite filter_cons. rewrite <- !app_assoc. split_and!.
    + by destruct (late_define_of line).
    + destruct (Py.startswith line _); [by rewrite decide_False|by rewrite decide_True].
    + done.
Qed.


End Classification.



(** ** Pruning by reachability *)

Section Prune.
Context (g : list (string * string)).
Implicit Types (used : gset string) (queue : list string) (name : string).

Lemma elem_of_graph_get name name2 : name2 ∈ graph_get g name ↔ edge g name name2.
Proof.
  unfold graph_get, edge. rewrite list_elem_of_fmap. split.
  - intros ([a b] & -> & [Ha Hin]%list_elem_of_filter). cbn in *. by subst a.
  - intros Hin. exists (name, name2). split; [done|]. by apply list_elem_of_filter.
Qed.

Lemma pending_add used name :
  name ∉ used →
  length (pending g used)
  = length (pending g ({[name]} ∪ used)) + length (graph_get g name).
Proof.
  intros Hname. unfold pending, graph_get. rewrite length_fmap.
  induction g as [|[a b] g' IH]; [done|].
  rewrite !filter_cons. cbn [fst].
  destruct (decide (a = name)) as [->|Hne].
  - rewrite (decide_True (P := name ∉ used)) by done.
    rewrite decide_False.
    2:{ intros H. apply H, elem_of_union. left. by apply elem_of_singleton. }
    cbn [length]. rewrite IH. lia.
  - destruct (decide (a ∈ used)) as [Ha|Ha].
    + rewrite (decide_False (P := a ∉ used)) by (intros H; by apply H).
      rewrite decide_False; [done|].
      intros H. apply H, elem_of_union. by right.
    + rewrite (decide_True (P := a ∉ used)) by done.
      rewrite decide_True.
      2:{ intros [H%elem_of_singleton|H]%elem_of_union; done. }
      cbn [length]. by rewrite IH.
Qed.

Lemma prune_inv_start : prune_inv g ∅ [""].
Proof.
  split.
  - intros name [H|H%list_elem_of_singleton]; [by apply elem_of_empty in H|].
    subst name. apply rtc_refl.
  - right. by left.
  - intros name name2 H. by apply elem_of_empty in H.
Qed.

Lemma prune_inv_end used name :
  prune_inv g used [] → name ∈ used ↔ reachable g "" name.
Proof.
  intros [Hr Hroot Hc]. split; [by eauto|].
  unfold reachable. revert name. apply (rtc_ind_r (λ n, n ∈ used)).
  - by destruct Hroot as [?|?%elem_of_nil].
  - intros n n2 _ Hedge IH.
    by destruct (Hc n n2 IH Hedge) as [?|?%elem_of_nil].
Qed.

Lemma prune_inv_skip used queue name :
  name ∈ used → prune_inv g used (queue ++ [name]) → prune_inv g used queue.
Proof.
  intros Hname [Hr Hroot Hc]. split.
  - intros n [?|?]; apply Hr; [by left|right]. apply elem_of_app. by left.
  - destruct Hroot as [?|[?|H%list_elem_of_singleton]%elem_of_app]; auto.
    left. by rewrite H.
  - intros n n2 Hn Hedge.
    destruct (Hc n n2 Hn Hedge) as [?|[?|H%list_elem_of_singleton]%elem_of_app]; auto.
    left. by rewrite H.
Qed.

Lemma prune_inv_visit used queue name :
  prune_inv g used (queue ++ [name]) →
  prune_inv g ({[name]} ∪ used) (queue ++ graph_get g name).
Proof.
  intros [Hr Hroot Hc].
  assert (reachable g "" name) as Hname.
  { apply Hr. right. apply elem_of_app. right. by left. }
  split.
  - intros n [[H%elem_of_singleton|?]%elem_of_union|[?|Hn]%elem_of_app].
    + by subst n.
    + apply Hr. by left.
    + apply Hr. right. apply elem_of_app. by left.
    + eapply rtc_r; [exact Hname|]. by apply elem_of_graph_get.
  - destruct Hroot as [?|[?|H%list_elem_of_singleton]%elem_of_app].
    + left. apply elem_of_union. by right.
    + right. apply elem_of_app. by left.
    + left. apply elem_of_union. left. by apply elem_of_singleton.
  - intros n n2 [H%elem_of_singleton|Hn]%elem_of_union Hedge.
    + subst n. right. apply elem_of_app. right. by apply elem_of_graph_get.
    + destruct (Hc n n2 Hn Hedge) as [?|[?|H%list_elem_of_singleton]%elem_of_app].
      * left. apply elem_of_union. by right.
      * right. apply elem_of_app. by left.
      * left. apply elem_of_union. left. by apply elem_of_singleton.
Qed.

(** The loop ends within its budget, with the set of the reachable
    names. *)
Lemma prune_loop_reachable fuel used queue :
  prune_inv g used queue →
  length queue + length (pending g used) < fuel →
  ∃ used', prune_loop fuel g used queue = Ret used'
    ∧ ∀ name, name ∈ used' ↔ reachable g "" name.
Proof.
  revert used queue. induction fuel as [|fuel IH]; intros used queue Hinv Hfuel; [lia|].
  cbn [prune_loop]. destruct (last queue) as [name|] eqn:Hlast.
  - apply last_Some in Hlast as [queue' ->]. rewrite removelast_last.
    rewrite length_app in Hfuel. cbn [length] in Hfuel.
    case_bool_decide as Hname.
    + apply IH; [by eapply prune_inv_skip|lia].
    + apply IH; [by apply prune_inv_visit|].
      rewrite length_app. rewrite (pending_add used name Hname) in Hfuel. lia.
  - apply last_None in Hlast as ->. exists used. split; [done|].
    intros name. by apply prune_inv_end.
Qed.

Lemma find_used_anywhere_reachable :
  ∃ used, find_used_anywhere g = Ret used
    ∧ ∀ name, name ∈ used ↔ reachable g "" name.
Proof.
  apply prune_loop_reachable; [apply prune_inv_start|].
  assert (length (pending g ∅) ≤ length g) by apply length_filter.
  cbn [length]. lia.
Qed.

(** A name other than the root that only its own definition calls
    cannot be reached. *)
Lemma unused_not_reachable name :
  name ≠ "" → (∀ name', edge g name' name → name' = name) → ¬ reachable g "" name.
Proof.
  intros Hne Hself H. apply rtc_inv_r in H as [?|(n & Hn & Hedge)]; [done|].
  assert ("" ≠ name) as Hne' by done.
  assert (∀ a b, reachable g a b → b = name → a = name) as Hback.
  { intros a b Hab. induction Hab as [|a b c Hab _ IH]; [done|].
    intros ->%IH. by apply Hself. }
  apply Hself in Hedge as ->. by apply Hne', (Hback "" name).
Qed.

End Prune.

(** C7.  When the recovery loop goes through the output of the second
    pass, the returned text consists of the lines [emit_lines]: a
    re-declaration for the late definitions whose name the pruning loop
    has put in [used_anywhere], which are exactly the names that can be
    reached from the root in the call graph, and a forward declaration
    [int name();] for exactly those whose name is an immediate successor
    of the root.  A name that nothing but its own definition calls is in
    neither set, so that its definition is left out of the block. *)
Theorem unreachable_late_defines_pruned out2 st :
  for_each recover_line {| late_defines := []; lines := []; graph := [] |}
    (Py.splitlines out2) = Ret st →
  ∃ used_anywhere used_by_nonmacro : gset string,
    emit_late_defines out2
    = Ret (Py.join nl (emit_lines st used_anywhere used_by_nonmacro))
    ∧ (∀ name, name ∈ used_anywhere ↔ reachable (graph st) "" name)
    ∧ (∀ name, name ∈ used_by_nonmacro ↔ edge (graph st) "" name)
    ∧ (∀ name, name ≠ "" →
         (∀ name', edge (graph st) name' name → name' = name) →
         (name ∉ used_anywhere) ∧ (name ∉ used_by_nonmacro)).
Proof.
  intros Hst. unfold emit_late_defines. rewrite Hst. cbn [bind].
  destruct (find_used_anywhere_reachable (graph st)) as (used & -> & Hused).
  cbn [bind]. exists used, (list_to_set (graph_get (graph st) "")).
  assert (∀ name, name ∈ (list_to_set (graph_get (graph st) "") : gset string)
                  ↔ edge (graph st) "" name) as Hdirect.
  { intros name. by rewrite elem_of_list_to_set, elem_of_graph_get. }
  split_and!; [done..|].
  intros name Hne Hself. split.
  - rewrite Hused. by apply unused_not_reachable.
  - rewrite Hdirect. intros Hedge. by apply Hself in Hedge.
Qed.

Lemma unreachable_late_defines_pruned_witness :
  let out2 := "_permuter define ADD(a,b) ((a)+(b))" +:+ nl
              +:+ "_permuter define UNUSED(x) (x)" +:+ nl
              +:+ "_permuter define INNER(x) (x)" +:+ nl
              +:+ "_permuter define OUTER(x) INNER(x)" +:+ nl
              +:+ "int f(void) {" +:+ nl
              +:+ "  x = ADD(1,2) + OUTER(3);" +:+ nl
              +:+ "}" +:+ nl in
  ∃ used_anywhere used_by_nonmacro : gset string,
    emit_late_defines out2
    = Ret ("#pragma _permuter latedefine start" +:+ nl
           +:+ "#pragma _permuter define ADD(a,b) ((a)+(b))" +:+ nl
           +:+ "#pragma _permuter define INNER(x) (x)" +:+ nl
           +:+ "#pragma _permuter define OUTER(x) INNER(x)" +:+ nl
           +:+ "int ADD();" +:+ nl
           +:+ "int OUTER();" +:+ nl
           +:+ "#pragma _permuter latedefine end" +:+ nl
           +:+ "int f(void) {" +:+ nl
           +:+ "  x = ADD(1,2) + OUTER(3);" +:+ nl
           +:+ "}" +:+ nl)
    ∧ ("UNUSED" ∉ used_anywhere) ∧ ("UNUSED" ∉ used_by_nonmacro).
Proof.
  intros out2.
  edestruct (unreachable_late_defines_pruned out2)
    as (used & direct & _ & _ & _ & Hunused); [vm_compute; reflexivity|].
  exists used, direct. split; [vm_compute; reflexivity|].
  apply Hunused; [done|]. cbn [graph]. unfold edge.
  intros name' Hedge.
  match type of Hedge with
  | _ ∈ ?g =>
      assert (Forall (λ p : string * string, p.2 = "UNUSED" → p.1 = "UNUSED") g) as Hall
        by (apply (bool_decide_unpack _); vm_compute; exact I)
  end.
  exact (proj1 (Forall_forall _ _) Hall _ Hedge eq_refl).
Defined.

(** ** [create_directory] *)

Lemma lacks_digits d : lacks "/" (NilEmpty.string_of_uint d) = true.
Proof. induction d; cbn; done. Qed.

Lemma str_of_nat_lacks n : lacks "/" (str_of_nat n) = true.
Proof. apply lacks_digits. Qed.

Lemma str_of_nat_inj n m : str_of_nat n = str_of_nat m → n = m.
Proof.
  unfold str_of_nat. intros H. apply Unsigned.to_uint_inj.
  assert (Some (Nat.to_uint n) = Some (Nat.to_uint m)) as [= ->]; [|done].
  by rewrite <- !NilEmpty.usu, H.
Qed.

Lemma str_app_inv_l s t u : s +:+ t = s +:+ u → t = u.
Proof. induction s as [|c s IH]; [done|]. rewrite !str_app_cons. intros [= H]. by apply IH. Qed.

Lemma str_app_length_nil s t : s +:+ t = s → t = "".
Proof.
  intros H. apply (f_equal String.length) in H. rewrite str_length_app in H.
  destruct t; [done|]. cbn in H. lia.
Qed.

Lemma attempt_inj func_name i j : 0 < i → 0 < j → attempt func_name i = attempt func_name j → i = j.
Proof.
  unfold attempt. intros Hi Hj H%str_app_inv_l.
  destruct (1 <? i) eqn:Ei, (1 <? j) eqn:Ej.
  - apply str_app_inv_l in H. change ("-" +:+ ?x) with (String "-" x) in H.
    injection H as H. by apply str_of_nat_inj.
  - by apply str_app_length_nil in H.
  - symmetry in H. by apply str_app_length_nil in H.
  - apply Nat.ltb_ge in Ei, Ej. lia.
Qed.

Lemma contains_sep_lacks s : lacks "/" s = true → Py.contains "/" s = false.
Proof.
  induction s as [|c s IH]; [done|]. cbn [lacks Py.contains Py.startswith].
  intros [Hc%negb_true_iff Hs]%andb_true_iff.
  rewrite IH by done. apply bool_decide_eq_false in Hc.
  rewrite bool_decide_eq_false_2; [done|]. by intros <-.
Qed.

Lemma contains_sep_app d rest : Py.contains "/" (d +:+ String "/" rest) = true.
Proof.
  induction d as [|c d IH].
  { rewrite str_app_nil_l. cbn [Py.contains Py.startswith].
    rewrite bool_decide_eq_true_2 by done. by destruct rest. }
  rewrite str_app_cons. cbn [Py.contains]. rewrite IH. apply orb_true_r.
Qed.

Lemma upto_last_sep_lacks s : lacks "/" s = true → PosixPath.upto_last_sep s = "".
Proof.
  intros H. destruct s as [|c s]; [done|]. cbn [PosixPath.upto_last_sep].
  by rewrite contains_sep_lacks.
Qed.

Lemma upto_last_sep_app d name :
  lacks "/" name = true →
  PosixPath.upto_last_sep (d +:+ String "/" name) = d +:+ "/".
Proof.
  intros Hname. induction d as [|c d IH].
  - rewrite !str_app_nil_l. cbn [PosixPath.upto_last_sep].
    pose proof (contains_sep_app "" name) as Hc. rewrite str_app_nil_l in Hc.
    rewrite Hc.
    by rewrite upto_last_sep_lacks.
  - rewrite !str_app_cons. cbn [PosixPath.upto_last_sep].
    pose proof (contains_sep_app (String c d) name) as Hc. rewrite str_app_cons in Hc.
    by rewrite Hc, IH.
Qed.

Lemma endswith_sep_cons c d :
  d ≠ "" → PosixPath.endswith_sep (String c d) = PosixPath.endswith_sep d.
Proof. by destruct d. Qed.

Lemma rstrip_sep_app d :
  d ≠ "" → PosixPath.endswith_sep d = false → PosixPath.rstrip_sep (d +:+ "/") = d.
Proof.
  induction d as [|c d IH]; [done|]. intros _ Hend. rewrite str_app_cons.
  cbn [PosixPath.rstrip_sep]. destruct d as [|c' d].
  - cbn. cbn in Hend. by rewrite Hend.
  - rewrite endswith_sep_cons in Hend by done. rewrite IH by done.
    by rewrite andb_false_r.
Qed.

Lemma all_sep_app d :
  d ≠ "" → PosixPath.endswith_sep d = false → PosixPath.all_sep (d +:+ "/") = false.
Proof.
  induction d as [|c d IH]; [done|]. intros _ Hend. rewrite str_app_cons.
  cbn [PosixPath.all_sep]. destruct d as [|c' d].
  - cbn in Hend. by rewrite Hend.
  - rewrite endswith_sep_cons in Hend by done. rewrite IH by done.
    apply andb_false_r.
Qed.

(** The directory of an entry of the directory [d]. *)
Lemma dirname_entry d name :
  d ≠ "" → PosixPath.endswith_sep d = false → lacks "/" name = true →
  PosixPath.dirname (d +:+ "/" +:+ name) = d.
Proof.
  intros Hd Hend Hname. unfold PosixPath.dirname.
  change (d +:+ "/" +:+ name) with (d +:+ String "/" name).
  rewrite upto_last_sep_app by done. cbn zeta.
  rewrite all_sep_app by done. rewrite bool_decide_eq_false_2.
  - by apply rstrip_sep_app.
  - destruct d; [done|]. by rewrite str_app_cons.
Qed.

Lemma endswith_sep_app p s :
  s ≠ "" → PosixPath.endswith_sep (p +:+ s) = PosixPath.endswith_sep s.
Proof.
  intros Hs. induction p as [|c p IH]; [done|]. rewrite str_app_cons.
  rewrite endswith_sep_cons; [done|]. destruct p; [by rewrite str_app_nil_l|by rewrite str_app_cons].
Qed.

Lemma endswith_sep_lacks s : lacks "/" s = true → PosixPath.endswith_sep s = false.
Proof.
  induction s as [|c s IH]; [done|]. cbn [lacks].
  intros [Hc%negb_true_iff Hs]%andb_true_iff. destruct s as [|c' s]; [done|].
  rewrite endswith_sep_cons by done. by apply IH.
Qed.

Lemma all_name_chars_lacks_sep s : all_name_chars s = true → lacks "/" s = true.
Proof.
  induction s as [|c s IH]; [done|]. cbn [all_name_chars lacks].
  intros [Hc Hs]%andb_true_iff. rewrite (IH Hs), andb_true_r.
  apply negb_true_iff, bool_decide_eq_false. intros ->. by vm_compute in Hc.
Qed.

Lemma valid_func_name_plain f : valid_func_name f = true → f ≠ "" ∧ lacks "/" f = true.
Proof.
  intros [Hne%negb_true_iff%bool_decide_eq_false Hc]%andb_true_iff.
  split; [done|]. by apply all_name_chars_lacks_sep.
Qed.

(** The names that [create_directory] tries are entries of
    [nonmatchings]. *)
Lemma attempt_entry f k :
  valid_func_name f = true →
  ∃ name, attempt f k = "nonmatchings" +:+ "/" +:+ name ∧ name ≠ "" ∧ lacks "/" name = true.
Proof.
  intros [Hne Hf]%valid_func_name_plain. unfold attempt.
  eexists. split; [reflexivity|]. destruct (1 <? k).
  - split; [by destruct f|]. rewrite !lacks_app, Hf, str_of_nat_lacks. done.
  - done.
Qed.

Lemma attempt_dirname f k :
  valid_func_name f = true → PosixPath.dirname (attempt f k) = "nonmatchings".
Proof.
  intros (name & -> & _ & Hname)%(attempt_entry f k). by apply dirname_entry.
Qed.

Lemma attempt_not_root f k : attempt f k ≠ "nonmatchings".
Proof.
  unfold attempt. intros H. change "nonmatchings/" with ("nonmatchings" +:+ "/") in H.
  rewrite str_app_assoc in H. by apply str_app_length_nil in H.
Qed.

Lemma mkdir_attempt f k (t : gmap string node) :
  valid_func_name f = true → t !! "nonmatchings" = Some Dir →
  mkdir (attempt f k) t
  = match t !! attempt f k with
    | Some _ => inl (FileExistsError (attempt f k))
    | None => inr (<[attempt f k := Dir]> t)
    end.
Proof.
  intros Hf Ht. unfold mkdir, parent_error. rewrite attempt_dirname by done.
  by rewrite Ht.
Qed.

Lemma create_directory_loop_spec f j : ∀ fuel c w,
  valid_func_name f = true → tree w !! "nonmatchings" = Some Dir →
  (∀ i, c < i ≤ c + j → is_Some (tree w !! attempt f i)) →
  tree w !! attempt f (c + j + 1) = None →
  j < fuel →
  create_directory_loop fuel f c w
  = (Done (attempt f (c + j + 1)),
     {| tree := <[attempt f (c + j + 1) := Dir]> (tree w); stdout := stdout w |}).
Proof.
  induction j as [|j IH]; intros fuel c w Hf Hroot Htaken Hfree Hfuel;
    (destruct fuel as [|fuel]; [lia|]); cbn [create_directory_loop];
    change ("nonmatchings/" +:+ (if 1 <? c + 1 then f +:+ "-" +:+ str_of_nat (c + 1) else f))
      with (attempt f (c + 1)); rewrite mkdir_attempt by done.
  - replace (c + 0 + 1) with (c + 1) in * by lia. by rewrite Hfree.
  - destruct (Htaken (c + 1)) as [n ->]; [lia|].
    replace (c + S j + 1) with (c + 1 + j + 1) in * by lia.
    apply IH; [done|done| |done|lia]. intros i Hi. apply Htaken. lia.
Qed.

Lemma least_index (P : nat → Prop) `{!∀ n, Decision (P n)} n :
  (∃ k, k ≤ n ∧ P k ∧ ∀ i, i < k → ¬ P i) ∨ (∀ i, i ≤ n → ¬ P i).
Proof.
  induction n as [|n [(k & Hk & HP & Hleast)|Hnone]].
  - destruct (decide (P 0)) as [H0|H0].
    + left. exists 0. split_and!; [done|done|]. intros i Hi. lia.
    + right. intros i Hi. by replace i with 0 by lia.
  - left. exists k. split_and!; [lia|done|done].
  - destruct (decide (P (S n))) as [HS|HS].
    + left. exists (S n). split_and!; [done|done|]. intros i Hi. apply Hnone. lia.
    + right. intros i Hi. destruct (decide (i = S n)) as [->|]; [done|]. apply Hnone. lia.
Qed.

(** One of the first [size t + 1] names is free. *)
Lemma attempt_free f (t : gmap string node) :
  ∃ j, j ≤ size t ∧ t !! attempt f (j + 1) = None
    ∧ ∀ i, i < j → is_Some (t !! attempt f (i + 1)).
Proof.
  destruct (least_index (λ j, t !! attempt f (j + 1) = None) (size t))
    as [(j & Hj & Hfree & Hleast)|Hnone].
  - exists j. split_and!; [done|done|]. intros i Hi.
    apply not_eq_None_Some. by apply Hleast.
  - exfalso.
    pose (names := (λ j, attempt f (j + 1)) <$> seq 0 (S (size t))).
    assert (NoDup names) as Hnodup.
    { apply NoDup_fmap_2_strong; [|apply NoDup_seq].
      intros i j _ _ H. apply attempt_inj in H; lia. }
    assert (list_to_set names ⊆ dom t) as Hsub.
    { intros name [j [-> Hj%elem_of_seq]]%elem_of_list_to_set%list_elem_of_fmap.
      apply elem_of_dom, not_eq_None_Some. apply Hnone. lia. }
    apply subseteq_size in Hsub.
    rewrite size_list_to_set, size_dom in Hsub by done.
    unfold names in Hsub. rewrite length_fmap, length_seq in Hsub. lia.
Qed.

Lemma create_directory_spec f w :
  valid_func_name f = true →
  (∀ cont mode, tree w !! "nonmatchings" ≠ Some (File cont mode)) →
  ∃ k, 1 ≤ k ≤ size (tree w) + 2
    ∧ create_directory f w
      = (Done (attempt f k),
         {| tree := <[attempt f k := Dir]> (<["nonmatchings" := Dir]> (tree w));
            stdout := stdout w |})
    ∧ tree w !! attempt f k = None
    ∧ ∀ i, 1 ≤ i < k → is_Some (tree w !! attempt f i).
Proof.
  intros Hf Hroot.
  set (t := <["nonmatchings" := Dir]> (tree w)).
  assert (∀ k, t !! attempt f k = tree w !! attempt f k) as Hsame.
  { intros k. unfold t. rewrite lookup_insert_ne; [done|]. intros H. by apply (attempt_not_root f k). }
  assert (os_call makedirs_nonmatchings w = (Done tt, {| tree := t; stdout := stdout w |}))
    as Hmk.
  { unfold os_call, makedirs_nonmatchings, t.
    destruct (tree w !! "nonmatchings") as [[|cont mode]|] eqn:Hr.
    - by rewrite insert_id.
    - by destruct (Hroot cont mode).
    - done. }
  destruct (attempt_free f t) as (j & Hj & Hfree & Htaken).
  assert (size t ≤ S (size (tree w))) as Hsize.
  { unfold t. destruct (tree w !! "nonmatchings") eqn:Hr.
    - rewrite map_size_insert_Some; [lia|done].
    - rewrite map_size_insert_None; [lia|done]. }
  exists (j + 1). split; [lia|]. split; [|split].
  - unfold create_directory, and_then. rewrite Hmk. cbn [tree].
    rewrite (create_directory_loop_spec f j); [done|done|..].
    + unfold t. cbn [tree]. apply lookup_insert_eq.
    + cbn [tree]. intros i Hi. replace i with (i - 1 + 1) by lia. apply Htaken. lia.
    + done.
    + lia.
  - by rewrite <- Hsame.
  - intros i Hi. rewrite <- Hsame. replace i with (i - 1 + 1) by lia. apply Htaken. lia.
Qed.

(** X1.  For a function name that [parse_asm] accepts, and unless
    [nonmatchings] is a regular file, [create_directory] ends within its
    budget: it returns the first name among [nonmatchings/f],
    [nonmatchings/f-2], [nonmatchings/f-3], ... that does not exist,
    after it has made that directory (and [nonmatchings], if it was not
    there) and changed nothing else. *)
Theorem create_directory_first_free f w :
  valid_func_name f = true →
  (∀ cont mode, tree w !! "nonmatchings" ≠ Some (File cont mode)) →
  ∃ k, 1 ≤ k ≤ size (tree w) + 2
    ∧ create_directory f w
      = (Done (attempt f k),
         {| tree := <[attempt f k := Dir]> (<["nonmatchings" := Dir]> (tree w));
            stdout := stdout w |})
    ∧ tree w !! attempt f k = None
    ∧ ∀ i, 1 ≤ i < k → is_Some (tree w !! attempt f i).
Proof. apply create_directory_spec. Qed.

(** ** [main] *)

Section Keeps.
Context (inv : gmap string node → Prop).

Lemma keeps_lift {A} (o : outcome A) : keeps inv (lift o).
Proof. by intros w Hw. Qed.

Lemma keeps_print line : keeps inv (print line).
Proof. by intros w Hw. Qed.

Lemma keeps_and_then {A B} (p : prog A) (k : A → prog B) :
  keeps inv p →
  (∀ w v w', inv (tree w) → p w = (Done v, w') → keeps inv (k v)) →
  keeps inv (and_then p k).
Proof.
  intros Hp Hk w Hw. unfold and_then. specialize (Hp w Hw).
  destruct (p w) as [[v|f|] w'] eqn:Hpw; cbn in *; [|done..]. by eapply Hk.
Qed.

Lemma keeps_os_call op :
  (∀ t t', inv t → op t = inr t' → inv t') → keeps inv (os_call op).
Proof.
  intros Hop w Hw. unfold os_call. destruct (op (tree w)) as [e|t'] eqn:Ht; [done|].
  cbn. by eapply Hop.
Qed.

Section Commands.
Context (E : env).
Context (tool : list string → option string → gmap string node
                → call_status * gmap string node).
Context (Htool : ∀ cmd cwd t, inv t → inv (tool cmd cwd t).2).

Lemma keeps_check_call cmd cwd : keeps inv (check_call tool cmd cwd).
Proof. intros w Hw. cbn. by apply Htool. Qed.

Lemma keeps_compile_asm assembler cwd in_file out_file :
  keeps inv (compile_asm E tool assembler cwd in_file out_file).
Proof.
  intros w Hw. unfold compile_asm.
  pose proof (keeps_check_call
    (assembler ++ [PosixPath.abspath (getcwd E) in_file; "-o";
                   PosixPath.abspath (getcwd E) out_file]) (Some cwd) w Hw) as H.
  destruct (check_call _ _ _ w) as [[|[| [] |]|] w']; done.
Qed.

Lemma keeps_compile_base compile_script in_file out_file :
  keeps inv (compile_base E tool compile_script in_file out_file).
Proof.
  intros w Hw. unfold compile_base.
  pose proof (keeps_check_call
    [compile_script; PosixPath.abspath (getcwd E) in_file; "-o";
     PosixPath.abspath (getcwd E) out_file] None w Hw) as H.
  destruct (check_call _ _ _ w) as [[|[| [] |]|] w']; done.
Qed.

(** The [try] block keeps what writing the files of the directory
    keeps. *)
Lemma keeps_main_try source func_name asm_cont compiler assembler cwd dirname :
  (∀ name cont t t', inv t → write_text (dirname +:+ "/" +:+ name) cont t = inr t' → inv t') →
  (∀ name mode t t', inv t → chmod (dirname +:+ "/" +:+ name) mode t = inr t' → inv t') →
  keeps inv (main_try E tool source func_name asm_cont compiler assembler cwd dirname).
Proof.
  intros Hwrite Hchmod. unfold main_try.
  apply keeps_and_then; [apply keeps_os_call, Hwrite|]. intros _ _ _ _ _.
  apply keeps_and_then; [apply keeps_os_call, Hwrite|]. intros _ _ _ _ _.
  apply keeps_and_then.
  { apply keeps_and_then; [apply keeps_os_call, Hwrite|]. intros.
    apply keeps_os_call, Hchmod. }
  intros _ _ _ _ _.
  apply keeps_and_then; [apply keeps_os_call, Hwrite|]. intros _ _ _ _ _.
  apply keeps_and_then; [apply keeps_compile_asm|]. intros.
  apply keeps_compile_base.
Qed.

End Commands.
End Keeps.

Section KeepsBase.
Context (base : gmap string node).

Lemma keeps_mkdir path (t t' : gmap string node) :
  base ⊆ t → mkdir path t = inr t' → base ⊆ t' ∧ base !! path = None ∧ t' = <[path := Dir]> t.
Proof.
  unfold mkdir. intros Hsub. destruct (parent_error t path); [done|].
  destruct (t !! path) eqn:Hp; [done|]. intros [= <-].
  assert (base !! path = None) by by eapply lookup_weaken_None.
  split_and!; [|done..]. by apply insert_subseteq_r.
Qed.

Lemma keeps_makedirs (t t' : gmap string node) :
  base ⊆ t → makedirs_nonmatchings t = inr t' → base ⊆ t'.
Proof.
  unfold makedirs_nonmatchings. intros Hsub.
  destruct (t !! "nonmatchings") as [[|]|] eqn:Hp; [by intros [= <-]|done|].
  intros [= <-]. apply insert_subseteq_r; [|done]. by eapply lookup_weaken_None.
Qed.

Lemma keeps_write_text path cont (t t' : gmap string node) :
  base !! path = None → base ⊆ t → write_text path cont t = inr t' → base ⊆ t'.
Proof.
  unfold write_text. intros Hp Hsub. destruct (parent_error t path); [done|].
  destruct (t !! path) as [[|]|]; [done|..]; intros [= <-]; by apply insert_subseteq_r.
Qed.

Lemma keeps_chmod path mode (t t' : gmap string node) :
  base !! path = None → base ⊆ t → chmod path mode t = inr t' → base ⊆ t'.
Proof.
  unfold chmod. intros Hp Hsub.
  destruct (t !! path) as [[|]|]; [by intros [= <-]| |done].
  intros [= <-]. by apply insert_subseteq_r.
Qed.

Lemma keeps_rmtree dirname (t t' : gmap string node) :
  (∀ path, under dirname path = true → base !! path = None) →
  base ⊆ t → rmtree dirname t = inr t' → base ⊆ t'.
Proof.
  unfold rmtree. intros Hunder Hsub. destruct (t !! dirname) as [[|]|]; [|done..].
  intros [= <-]. apply map_subseteq_spec. intros path n Hn.
  apply map_lookup_filter_Some. split; [by eapply lookup_weaken|]. cbn.
  destruct (under dirname path) eqn:Hu; [|done]. apply Hunder in Hu. congruence.
Qed.

Lemma keeps_create_directory_loop fuel f ctr w dirname w' :
  base ⊆ tree w →
  create_directory_loop fuel f ctr w = (Done dirname, w') →
  base ⊆ tree w' ∧ base !! dirname = None ∧ tree w' !! dirname = Some Dir.
Proof.
  revert ctr. induction fuel as [|fuel IH]; intros ctr Hsub; [done|].
  cbn [create_directory_loop].
  destruct (mkdir _ (tree w)) as [[]|t'] eqn:Hmk; try done.
  - apply IH. done.
  - intros [= <- <-]. cbn. destruct (keeps_mkdir _ _ _ Hsub Hmk) as (? & ? & ->).
    split_and!; [done|done|]. apply lookup_insert_eq.
Qed.

Lemma create_directory_loop_fails fuel f ctr w r w' :
  create_directory_loop fuel f ctr w = (r, w') → (∀ v, r ≠ Done v) → w' = w.
Proof.
  revert ctr. induction fuel as [|fuel IH]; intros ctr; cbn [create_directory_loop].
  - by intros [= <- <-].
  - destruct (mkdir _ (tree w)) as [[]|t'] eqn:Hmk; try (by intros [= <- <-]).
    + apply IH.
    + intros [= <- <-] H. by destruct (H _ eq_refl).
Qed.

Lemma keeps_create_directory f w dirname w' :
  base ⊆ tree w →
  create_directory f w = (Done dirname, w') →
  base ⊆ tree w' ∧ base !! dirname = None ∧ tree w' !! dirname = Some Dir.
Proof.
  unfold create_directory, and_then, os_call. intros Hsub.
  destruct (makedirs_nonmatchings (tree w)) as [e|t] eqn:Hmk; [done|].
  intros H. apply keeps_create_directory_loop in H; [done|].
  cbn. by eapply keeps_makedirs.
Qed.

Lemma create_directory_keeps f : keeps (base ⊆.) (create_directory f).
Proof.
  intros w Hsub. destruct (create_directory f w) as [[d| |] w'] eqn:H.
  - by apply keeps_create_directory in H as (? & _).
  - unfold create_directory, and_then, os_call in H.
    destruct (makedirs_nonmatchings (tree w)) as [e|t] eqn:Hmk; [by injection H as <- <-|].
    apply create_directory_loop_fails in H as ->; [|done]. cbn. by eapply keeps_makedirs.
  - unfold create_directory, and_then, os_call in H.
    destruct (makedirs_nonmatchings (tree w)) as [e|t] eqn:Hmk; [by injection H as <- <-|].
    apply create_directory_loop_fails in H as ->; [|done]. cbn. by eapply keeps_makedirs.
Qed.

Lemma under_fresh dirname :
  no_orphans base → base !! dirname = None →
  ∀ path, under dirname path = true → base !! path = None.
Proof.
  intros Hbase Hd path [->%bool_decide_eq_true|Hp]%orb_true_iff; [done|].
  by eapply Hbase.
Qed.

End KeepsBase.

Lemma under_entry dirname name : under dirname (dirname +:+ "/" +:+ name) = true.
Proof.
  unfold under. rewrite <- str_app_assoc, startswith_app. apply orb_true_r.
Qed.

Section DriverKeeps.
Context (E : env).
Context (tool : list string → option string → gmap string node
                → call_status * gmap string node).
Context (base : gmap string node).
Context (Htool : ∀ cmd cwd t, base ⊆ t → base ⊆ (tool cmd cwd t).2).

Lemma keeps_or_delete keep dirname body :
  (∀ path, under dirname path = true → base !! path = None) →
  keeps (base ⊆.) body → keeps (base ⊆.) (or_delete keep dirname body).
Proof.
  intros Hunder Hbody w Hw. unfold or_delete. specialize (Hbody w Hw).
  destruct (body w) as [[|f|] w']; [done| |done]. destruct keep; [done|].
  unfold and_then, print, os_call. cbn [tree stdout].
  destruct (rmtree dirname (tree w')) as [e|t'] eqn:Hrm; [done|].
  cbn in *. exact (keeps_rmtree base dirname _ _ Hunder Hbody Hrm).
Qed.

Lemma keeps_main args : no_orphans base → keeps (base ⊆.) (main E tool args).
Proof.
  intros Hbase. unfold main.
  apply keeps_and_then; [apply keeps_lift|]. intros w1 [func_name asm_cont] w1' _ _.
  apply keeps_and_then; [apply keeps_print|]. intros _ _ _ _ _.
  apply keeps_and_then; [apply keeps_lift|]. intros _ [[compiler assembler] cwd] _ _ _.
  apply keeps_and_then; [apply keeps_print|]. intros _ _ _ _ _.
  apply keeps_and_then; [apply keeps_print|]. intros _ _ _ _ _.
  apply keeps_and_then; [apply keeps_lift|]. intros _ source _ _ _.
  apply keeps_and_then; [apply create_directory_keeps|].
  intros w dirname w' Hw (_ & Hfresh & _)%(keeps_create_directory base); [|done].
  pose proof (under_fresh base dirname Hbase Hfresh) as Hunder.
  apply keeps_and_then; [|intros; apply keeps_print].
  apply keeps_or_delete; [done|].
  apply keeps_main_try; [done|..].
  - intros name cont t t'. apply keeps_write_text, Hunder, under_entry.
  - intros name mode t t'. apply keeps_chmod, Hunder, under_entry.
Qed.

End DriverKeeps.

(** X3.  When no entry of the tree lies below a missing path and the
    commands that are run leave the entries that exist at the start as
    they are, every entry that exists at the start is the same when
    [main] ends, however it ends. *)
Theorem main_keeps_existing E tool args w :
  no_orphans (tree w) →
  (∀ cmd cwd t, tree w ⊆ t → tree w ⊆ (tool cmd cwd t).2) →
  tree w ⊆ tree (main E tool args w).2.
Proof. intros Hw Htool. by apply (keeps_main E tool (tree w) Htool args Hw). Qed.

Lemma parse_asm_valid E asm_file name asm_cont :
  parse_asm E asm_file = Ret (name, asm_cont) → valid_func_name name = true.
Proof.
  unfold parse_asm, parse_asm_lines. destruct (open_lines E asm_file) as [e|lines]; [done|].
  destruct (for_each _ _ lines) as [st| | |]; [|done..]. cbn [bind].
  destruct (func_name st) as [name'|]; [|done].
  destruct (valid_func_name name') eqn:Hvalid; [|done]. by intros [= <- _].
Qed.

Lemma create_directory_loop_stdout fuel f ctr w r w' s :
  create_directory_loop fuel f ctr w = (r, w') →
  stdout w' = stdout w
  ∧ create_directory_loop fuel f ctr {| tree := tree w; stdout := s |}
    = (r, {| tree := tree w'; stdout := s |}).
Proof.
  revert ctr. induction fuel as [|fuel IH]; intros ctr; cbn [create_directory_loop tree stdout].
  - by intros [= <- <-].
  - destruct (mkdir _ (tree w)) as [[]|t'] eqn:Hmk; try (by intros [= <- <-]).
    apply IH.
Qed.

(** What [create_directory] does is independent of what has been
    printed, and it prints nothing. *)
Lemma create_directory_stdout f w r w' s :
  create_directory f w = (r, w') →
  stdout w' = stdout w
  ∧ create_directory f {| tree := tree w; stdout := s |}
    = (r, {| tree := tree w'; stdout := s |}).
Proof.
  unfold create_directory, and_then, os_call. cbn [tree stdout].
  destruct (makedirs_nonmatchings (tree w)) as [e|t]; [by intros [= <- <-]|].
  intros H. by apply (create_directory_loop_stdout _ _ _ _ _ _ s) in H.
Qed.

Lemma and_then_lift {A B} (o : outcome A) (k : A → prog B) w :
  and_then (lift o) k w
  = match o with
    | Ret v => k v w
    | Exit msg => (Failed (SystemExit msg), w)
    | Raise e => (Failed (Escaped e), w)
    | OutOfFuel => (Diverged, w)
    end.
Proof. by destruct o. Qed.

Lemma and_then_print {B} line (k : unit → prog B) w :
  and_then (print line) k w = k tt {| tree := tree w; stdout := stdout w ++ [line] |}.
Proof. reflexivity. Qed.

Section DriverRun.
Context (E : env).
Context (tool : list string → option string → gmap string node
                → call_status * gmap string node).

(** [main] once its three inputs are there. *)
Lemma main_resolved args w func_name asm_cont compiler assembler cwd source :
  parse_asm E (arg_asm_file args) = Ret (func_name, asm_cont) →
  find_build_command_line E (arg_c_file args) (arg_make_flags args ++ ["PERMUTER=1"])
  = Ret (compiler, assembler, cwd) →
  import_c_file E compiler cwd (arg_c_file args) (arg_preserve_macros args) = Ret source →
  main E tool args w
  = (let! dirname := create_directory func_name in
     let! _ :=
       or_delete (arg_keep args) dirname
         (main_try E tool source func_name asm_cont compiler assembler cwd dirname) in
     print (nl +:+ "Done. Imported into " +:+ dirname))
      {| tree := tree w;
         stdout := stdout w
           ++ ["Function name: " +:+ func_name;
               "Compiler: " +:+ formatcmd E compiler +:+ " {input} -o {output}";
               "Assembler: " +:+ formatcmd E assembler +:+ " {input} -o {output}"] |}.
Proof.
  intros Hparse Hfind Himport. unfold main.
  rewrite and_then_lift, Hparse. cbn [fst snd]. rewrite and_then_print.
  rewrite and_then_lift, Hfind. cbn [fst snd]. rewrite !and_then_print.
  rewrite and_then_lift, Himport. cbn [tree stdout]. by rewrite <- !app_assoc.
Qed.


End DriverRun.


Lemma entry_not_dirname dirname name : dirname +:+ "/" +:+ name ≠ dirname.
Proof. intros H. by apply str_app_length_nil in H. Qed.

Section DriverCleanup.
Context (E : env).
Context (tool : list string → option string → gmap string node
                → call_status * gmap string node).

Lemma keeps_directory_main_try source func_name asm_cont compiler assembler cwd dirname :
  (∀ cmd cwd t, t !! dirname = Some Dir → (tool cmd cwd t).2 !! dirname = Some Dir) →
  keeps (λ t, t !! dirname = Some Dir)
    (main_try E tool source func_name asm_cont compiler assembler cwd dirname).
Proof.
  intros Htool. apply keeps_main_try; [exact Htool|..].
  - intros name cont t t' Ht. unfold write_text. destruct (parent_error _ _); [done|].
    destruct (t !! (dirname +:+ "/" +:+ name)) as [[|]|]; [done|..]; intros [= <-];
      rewrite lookup_insert_ne; done || apply entry_not_dirname.
  - intros name mode t t' Ht. unfold chmod.
    destruct (t !! (dirname +:+ "/" +:+ name)) as [[|]|]; [by intros [= <-]| |done].
    intros [= <-].
    rewrite lookup_insert_ne; done || apply entry_not_dirname.
Qed.

Lemma rmtree_under dirname (t t' : gmap string node) path :
  rmtree dirname t = inr t' → under dirname path = true → t' !! path = None.
Proof.
  unfold rmtree. destruct (t !! dirname) as [[|]|]; [|done..]. intros [= <-] Hu.
  apply map_lookup_filter_None. right. intros n _. cbn. by rewrite Hu.
Qed.

End DriverCleanup.

(** X4.  When the inputs are resolved, [create_directory] has made
    [dirname], the commands leave that directory in place and [--keep]
    is not given, a run of [main] that fails leaves nothing at or below
    [dirname]. *)
Theorem main_failure_removes_directory E tool args w func_name asm_cont compiler
    assembler cwd source dirname w1 f w' :
  arg_keep args = false →
  parse_asm E (arg_asm_file args) = Ret (func_name, asm_cont) →
  find_build_command_line E (arg_c_file args) (arg_make_flags args ++ ["PERMUTER=1"])
  = Ret (compiler, assembler, cwd) →
  import_c_file E compiler cwd (arg_c_file args) (arg_preserve_macros args) = Ret source →
  create_directory func_name w = (Done dirname, w1) →
  (∀ cmd cwd t, t !! dirname = Some Dir → (tool cmd cwd t).2 !! dirname = Some Dir) →
  main E tool args w = (Failed f, w') →
  ∀ path, under dirname path = true → tree w' !! path = None.
Proof.
  intros Hkeep Hparse Hfind Himport Hcreate Htool Hmain path Hpath.
  rewrite (main_resolved E tool args w _ _ _ _ _ _ Hparse Hfind Himport) in Hmain.
  pose proof (keeps_create_directory ∅ _ _ _ _ (map_empty_subseteq _) Hcreate)
    as (_ & _ & Hdir).
  eapply create_directory_stdout in Hcreate as [_ Hcreate].
  unfold and_then at 1 in Hmain. rewrite Hcreate in Hmain.
  unfold and_then at 1 in Hmain. unfold or_delete in Hmain. rewrite Hkeep in Hmain.
  match type of Hmain with
  | context [main_try E tool ?a ?b ?c ?d ?e ?g ?h ?w0] =>
      pose proof (keeps_directory_main_try E tool a b c d e g h Htool w0 Hdir) as Hbody;
      destruct (main_try E tool a b c d e g h w0) as [[[]|f0|] wb]
  end; cbn [fst snd] in Hbody; [done| |done].
  unfold and_then, print, os_call in Hmain. cbn [tree stdout] in Hmain.
  destruct (rmtree dirname (tree wb)) as [e|t'] eqn:Hrm.
  { unfold rmtree in Hrm. by rewrite Hbody in Hrm. }
  injection Hmain as <- <-. cbn [tree]. by eapply rmtree_under.
Qed.

Lemma write_text_new (t : gmap string node) d name cont :
  t !! d = Some Dir → d ≠ "" → PosixPath.endswith_sep d = false →
  lacks "/" name = true → t !! (d +:+ "/" +:+ name) = None →
  write_text (d +:+ "/" +:+ name) cont t = inr (<[d +:+ "/" +:+ name := File cont None]> t).
Proof.
  intros Hd Hne Hend Hname Hnew. unfold write_text, parent_error.
  rewrite dirname_entry by done. rewrite bool_decide_eq_false_2 by done.
  by rewrite Hd, Hnew.
Qed.

Lemma entry_inj d name name' : d +:+ "/" +:+ name = d +:+ "/" +:+ name' → name = name'.
Proof. intros H%str_app_inv_l. by injection H. Qed.

Lemma attempt_plain f k :
  valid_func_name f = true → attempt f k ≠ "" ∧ PosixPath.endswith_sep (attempt f k) = false.
Proof.
  intros (name & -> & Hne & Hname)%(attempt_entry f k). split; [done|].
  rewrite <- str_app_assoc, endswith_sep_app by done. by apply endswith_sep_lacks.
Qed.

Section DriverSuccess.
Context (E : env).
Context (tool : list string → option string → gmap string node
                → call_status * gmap string node).

(** The files that the [try] block writes before it runs a command. *)
Lemma main_try_writes source func_name asm_cont compiler assembler cwd d w :
  tree w !! d = Some Dir → d ≠ "" → PosixPath.endswith_sep d = false →
  (∀ name, tree w !! (d +:+ "/" +:+ name) = None) →
  main_try E tool source func_name asm_cont compiler assembler cwd d w
  = (let! _ := compile_asm E tool assembler cwd (d +:+ "/target.s") (d +:+ "/target.o") in
     compile_base E tool (d +:+ "/compile.sh") (d +:+ "/base.c") (d +:+ "/base.o"))
      {| tree :=
           <[d +:+ "/target.s" := File (ASM_PRELUDE +:+ asm_cont) None]>
             (<[d +:+ "/compile.sh" := File (write_compile_command E compiler cwd) (Some 493%N)]>
                (<[d +:+ "/function.txt" := File func_name None]>
                   (<[d +:+ "/base.c" := File source None]> (tree w))));
         stdout := stdout w |}.
Proof.
  intros Hd Hne Hend Hnew.
  unfold main_try, write_to_file, write_compile_script, write_asm, and_then, os_call.
  rewrite (write_text_new _ d "base.c") by done. cbn [tree stdout].
  rewrite (write_text_new _ d "function.txt") by (cbn [tree stdout];
        repeat (rewrite lookup_insert_ne
                  by first [by intros ?%entry_inj | by intros ?%entry_not_dirname]);
        done). cbn [tree stdout].
  rewrite (write_text_new _ d "compile.sh") by (cbn [tree stdout];
        repeat (rewrite lookup_insert_ne
                  by first [by intros ?%entry_inj | by intros ?%entry_not_dirname]);
        done). cbn [tree stdout].
  unfold chmod. rewrite lookup_insert_eq, insert_insert_eq. cbn [tree stdout].
  rewrite (write_text_new _ d "target.s") by (cbn [tree stdout];
        repeat (rewrite lookup_insert_ne
                  by first [by intros ?%entry_inj | by intros ?%entry_not_dirname]);
        done). done.
Qed.

End DriverSuccess.

Lemma attempt_entry_not_root f k name : attempt f k +:+ "/" +:+ name ≠ "nonmatchings".
Proof.
  unfold attempt. change "nonmatchings/" with ("nonmatchings" +:+ "/").
  rewrite !str_app_assoc. intros H. by apply str_app_length_nil in H.
Qed.

(** X5.  When the inputs are resolved, the assembler returns 0 and the
    compile script can be started, [main] ends normally: it writes
    [base.c], [function.txt], [compile.sh] (with mode 0o755) and
    [target.s] (the prelude followed by the listing) into the first free
    directory, runs the assembler and then the compile script, prints
    the three lines of the inputs, a warning if the compile script
    failed, and the line that names the directory. *)
Theorem main_imports E tool args w func_name asm_cont compiler assembler cwd source :
  parse_asm E (arg_asm_file args) = Ret (func_name, asm_cont) →
  find_build_command_line E (arg_c_file args) (arg_make_flags args ++ ["PERMUTER=1"])
  = Ret (compiler, assembler, cwd) →
  import_c_file E compiler cwd (arg_c_file args) (arg_preserve_macros args) = Ret source →
  no_orphans (tree w) →
  (∀ cont mode, tree w !! "nonmatchings" ≠ Some (File cont mode)) →
  (∀ cmd t, (tool cmd (Some cwd) t).1 = Returned0) →
  (∀ cmd t e, (tool cmd None t).1 ≠ NotStarted e) →
  ∃ k,
    let d := attempt func_name k in
    let written :=
      <[d +:+ "/target.s" := File (ASM_PRELUDE +:+ asm_cont) None]>
        (<[d +:+ "/compile.sh" := File (write_compile_command E compiler cwd) (Some 493%N)]>
           (<[d +:+ "/function.txt" := File func_name None]>
              (<[d +:+ "/base.c" := File source None]>
                 (<[d := Dir]> (<["nonmatchings" := Dir]> (tree w)))))) in
    let assembled :=
      tool (assembler ++ [PosixPath.abspath (getcwd E) (d +:+ "/target.s"); "-o";
                          PosixPath.abspath (getcwd E) (d +:+ "/target.o")])
        (Some cwd) written in
    let compile_cmd :=
      [d +:+ "/compile.sh"; PosixPath.abspath (getcwd E) (d +:+ "/base.c"); "-o";
       PosixPath.abspath (getcwd E) (d +:+ "/base.o")] in
    let compiled := tool compile_cmd None assembled.2 in
    tree w !! d = None
    ∧ (∀ i, 1 ≤ i < k → is_Some (tree w !! attempt func_name i))
    ∧ main E tool args w
      = (Done tt,
         {| tree := compiled.2;
            stdout := stdout w
              ++ ["Function name: " +:+ func_name;
                  "Compiler: " +:+ formatcmd E compiler +:+ " {input} -o {output}";
                  "Assembler: " +:+ formatcmd E assembler +:+ " {input} -o {output}"]
              ++ match compiled.1 with
                 | ReturnedNonzero =>
                     ["Warning: failed to compile .c file, you'll need to adjust it manually. "
                      +:+ "Command line:" +:+ nl +:+ formatcmd E compile_cmd]
                 | _ => []
                 end
              ++ [nl +:+ "Done. Imported into " +:+ d] |}).
Proof.
  intros Hparse Hfind Himport Horphans Hroot Hasm Hcc.
  pose proof (parse_asm_valid _ _ _ _ Hparse) as Hvalid.
  destruct (create_directory_spec func_name w Hvalid Hroot)
    as (k & _ & Hcreate & Hfresh & Htaken).
  exists k. intros d written assembled compile_cmd compiled.
  split; [done|]. split; [done|].
  rewrite (main_resolved E tool args w _ _ _ _ _ _ Hparse Hfind Himport).
  eapply create_directory_stdout in Hcreate as [_ Hcreate].
  unfold and_then at 1. rewrite Hcreate. cbn [tree stdout]. fold d.
  destruct (attempt_plain func_name k Hvalid) as [Hne Hend]. fold d in Hne, Hend.
  unfold and_then at 1. unfold or_delete.
  rewrite main_try_writes; [|by apply lookup_insert_eq|done|done|]; cbn [tree stdout].
  2:{ intros name. rewrite lookup_insert_ne by apply not_eq_sym, entry_not_dirname.
      rewrite lookup_insert_ne by apply not_eq_sym, attempt_entry_not_root.
      apply (Horphans d); [done|]. by rewrite <- str_app_assoc, startswith_app. }
  fold written. unfold and_then at 1. unfold compile_asm, check_call. cbn [tree stdout].
  rewrite Hasm. fold assembled. unfold compile_base, check_call. cbn [tree stdout].
  fold compile_cmd. fold compiled.
  destruct (compiled.1) as [| |e] eqn:Hstatus; [| |by destruct (Hcc _ _ _ Hstatus)].
  - unfold print. cbn [tree stdout]. rewrite <- !app_assoc. reflexivity.
  - unfold print. cbn [tree stdout]. rewrite <- !app_assoc. reflexivity.
Qed.

Lemma parents_spec path d : Py.startswith path (d +:+ "/") = true → d ∈ parents path.
Proof.
  revert d. induction path as [|c path IH]; intros d.
  - destruct d; [done|]. by rewrite str_app_cons.
  - destruct d as [|c' d].
    + rewrite str_app_nil_l. cbn [Py.startswith parents].
      intros [<-%bool_decide_eq_true _]%andb_true_iff.
      rewrite bool_decide_eq_true_2 by done. by left.
    + rewrite str_app_cons. cbn [Py.startswith parents].
      intros [<-%bool_decide_eq_true H]%andb_true_iff.
      apply elem_of_app. right. apply list_elem_of_fmap. exists d. split; [done|]. by apply IH.
Qed.

(** A test for [no_orphans] that can be run. *)
Lemma no_orphans_parents (t : gmap string node) :
  map_Forall (λ path _, Forall (λ d, is_Some (t !! d)) (parents path)) t → no_orphans t.
Proof.
  intros Ht d path Hd Hpath. destruct (t !! path) as [n|] eqn:Hn; [|done].
  apply Ht in Hn. apply parents_spec in Hpath.
  apply (proj1 (Forall_forall _ _) Hn) in Hpath as [n' Hn']. congruence.
Qed.

Lemma run_before_no_orphans : no_orphans (tree Run.before).
Proof. apply no_orphans_parents. apply (bool_decide_unpack _). vm_compute. exact I. Qed.

Lemma create_directory_first_free_witness :
  create_directory "foo" Run.before
  = (Done "nonmatchings/foo-2",
     {| tree := <["nonmatchings/foo-2" := Dir]> (<["nonmatchings" := Dir]> (tree Run.before));
        stdout := [] |}).
Proof.
  destruct (create_directory_first_free "foo" Run.before) as (k & Hk & -> & Hfree & Htaken).
  - reflexivity.
  - intros cont mode. vm_compute. discriminate.
  - assert (k = 2) as ->; [|reflexivity].
    destruct (decide (k = 1)) as [->|]; [by vm_compute in Hfree|].
    destruct (decide (k = 2)) as [|]; [done|].
    destruct (Htaken 2) as [x Hx]; [lia|]. by vm_compute in Hx.
Defined.

Lemma main_keeps_existing_witness :
  tree Run.before ⊆ tree (main Run.E Run.broken_as (Run.args false) Run.before).2.
Proof.
  apply main_keeps_existing; [apply run_before_no_orphans|].
  intros cmd [cwd|] t Ht; [|done]. cbn. apply insert_subseteq_r; [|done].
  vm_compute. reflexivity.
Defined.


Lemma main_failure_removes_directory_witness :
  tree (main Run.E Run.broken_as (Run.args false) Run.before).2
    !! "nonmatchings/foo-2/target.o" = None.
Proof.
  eapply (main_failure_removes_directory Run.E Run.broken_as (Run.args false) Run.before
            "foo" _ _ _ _ _ "nonmatchings/foo-2" _
            (SystemExit ("Failed to assemble .s file, command line:" +:+ nl
               +:+ "mips-linux-gnu-as -march=vr4300 -mabi=32 "
               +:+ "/proj/nonmatchings/foo-2/target.s -o /proj/nonmatchings/foo-2/target.o"))).
  - reflexivity.
  - vm_compute. reflexivity.
  - vm_compute. reflexivity.
  - vm_compute. reflexivity.
  - vm_compute. reflexivity.
  - intros cmd [cwd|] t Ht; [|done]. cbn. by rewrite lookup_insert_ne.
  - rewrite (surjective_pairing (main _ _ _ _)) at 1. f_equal; vm_compute; reflexivity.
  - vm_compute. reflexivity.
Defined.

Lemma main_imports_witness :
  (main Run.E Run.quiet (Run.args false) Run.before).1 = Done tt
  ∧ last (stdout (main Run.E Run.quiet (Run.args false) Run.before).2)
    = Some (nl +:+ "Done. Imported into nonmatchings/foo-2").
Proof.
  destruct (main_imports Run.E Run.quiet (Run.args false) Run.before "foo"
              ("glabel foo" +:+ nl +:+ "  jr $ra" +:+ nl +:+ "   nop" +:+ nl)
              ["cc"; "-c"; "-O2"; "-Iinclude"] DEFAULT_AS_CMDLINE "/proj"
              ("int foo(void) { return 1; }" +:+ nl))
    as (k & Hfresh & Htaken & ->).
  - vm_compute. reflexivity.
  - vm_compute. reflexivity.
  - vm_compute. reflexivity.
  - apply run_before_no_orphans.
  - intros cont mode. vm_compute. discriminate.
  - reflexivity.
  - intros cmd t e. discriminate.
  - assert (k = 2) as ->.
    { destruct (decide (k = 1)) as [->|]; [by vm_compute in Hfresh|].
      destruct (decide (k = 2)) as [|]; [done|].
      destruct (Htaken 2) as [x Hx]; [|by vm_compute in Hx].
      assert (k ≠ 0) by (intros ->; by vm_compute in Hfresh). lia. }
    split; [reflexivity|]. cbn [snd stdout]. rewrite !app_assoc. apply last_snoc.
Defined.

(** ** Further properties of the search for the makefile *)

Section MakefileNearest.
Context (E : env).

Lemma ancestor_dirname k dirname :
  ancestor k (PosixPath.dirname dirname) = ancestor (S k) dirname.
Proof. unfold ancestor. by rewrite Nat.iter_succ_r. Qed.

Lemma find_makefile_loop_nearest fuel filename old dirname :
  String.length dirname < fuel →
  (∃ k, find_makefile_loop E fuel filename old dirname = Ret (ancestor k dirname)
     ∧ has_makefile E (ancestor k dirname) = true
     ∧ ∀ j, j < k → has_makefile E (ancestor j dirname) = false)
  ∨ find_makefile_loop E fuel filename old dirname
    = Exit ("Missing makefile for file " +:+ filename +:+ "!").
Proof.
  revert old dirname. induction fuel as [|fuel IH]; intros old dirname Hf; [lia|].
  cbn [find_makefile_loop].
  destruct (negb (bool_decide (dirname = "")) && _) eqn:Hcond; [|by right].
  destruct (has_makefile E dirname) eqn:Hhas.
  { left. exists 0. split_and!; [done|done|]. intros j Hj. lia. }
  apply andb_true_iff in Hcond as [Hne%negb_true_iff%bool_decide_eq_false _].
  assert (0 < String.length dirname) by (destruct dirname; [done|simpl; lia]).
  destruct (decide (String.length (PosixPath.dirname dirname) < fuel)) as [Hlt|Hge].
  - destruct (IH (Some dirname) _ Hlt) as [(k & Hret & Hk & Hleast)|Hexit]; [|by right].
    left. exists (S k). rewrite <- ancestor_dirname. split_and!; [done|done|].
    intros [|j] Hj; [done|]. rewrite <- ancestor_dirname. apply Hleast. lia.
  - right. destruct fuel as [|fuel]; [lia|]. cbn [find_makefile_loop falsy default id].
    rewrite (bool_decide_eq_false_2 (dirname = "")) by done.
    replace (String.length (PosixPath.dirname dirname) <? String.length dirname)
      with false by (symmetry; apply Nat.ltb_ge; lia).
    cbn [orb]. by rewrite andb_false_r.
Qed.

End MakefileNearest.


(** ** Further properties of [parse_asm] *)

Lemma for_each_app {S A} (body : S → A → outcome S) st l1 l2 :
  for_each body st (l1 ++ l2) = let* st' := for_each body st l1 in for_each body st' l2.
Proof.
  revert st. induction l1 as [|x l1 IH]; intros st; [done|]. cbn [app for_each].
  destruct (body st x); cbn [bind]; by rewrite ?IH.
Qed.

Lemma first_glabel_None lines :
  Forall (λ l, is_glabel l = false) lines → first_glabel lines = None.
Proof.
  induction 1 as [|l lines Hl _ IH]; [done|]. by rewrite first_glabel_cons, Hl.
Qed.

(** X8.  In a listing whose [.section] directives name their section,
    when no line read while the executable section is active starts (up
    to blanks) with [glabel ], [parse_asm] exits with the "Missing
    function name" diagnostic, whatever the other sections hold. *)
Theorem parse_asm_missing_name E asm_file lines :
  open_lines E asm_file = inr lines →
  Forall well_formed lines →
  Forall (λ l, is_glabel l = false) (text_lines ".text" lines) →
  parse_asm E asm_file
  = Exit ("Missing function name in assembly file! "
          +:+ "The file should start with 'glabel function_name'.").
Proof.
  intros Hopen Hwf Hnone. unfold parse_asm. rewrite Hopen.
  rewrite parse_asm_lines_spec by done. by rewrite first_glabel_None.
Qed.

(** X9.  In a listing whose [.section] directives name their section,
    when the second field of the first [glabel] line of the executable
    section is not made of the characters [[A-Za-z0-9_$]], [parse_asm]
    exits with "Bad function name: " and that field. *)
Theorem parse_asm_bad_name E asm_file lines before line after name :
  open_lines E asm_file = inr lines →
  Forall well_formed lines →
  text_lines ".text" lines = before ++ line :: after →
  Forall (λ l, is_glabel l = false) before →
  is_glabel line = true →
  Py.split_ws line !! 1 = Some name →
  valid_func_name name = false →
  parse_asm E asm_file = Exit ("Bad function name: " +:+ name).
Proof.
  intros Hopen Hwf Htext Hbefore Hline Hname Hvalid. unfold parse_asm. rewrite Hopen.
  rewrite parse_asm_lines_spec by done.
  by rewrite Htext, first_glabel_app, Hname, Hvalid.
Qed.

(** X10.  The first line that starts (up to blanks) with [.section] and
    has no second field makes [parse_asm] end with an uncaught
    IndexError. *)
Theorem parse_asm_section_without_name E asm_file before line after :
  open_lines E asm_file = inr (before ++ line :: after) →
  Forall well_formed before →
  Py.startswith (Py.strip line) ".section" = true →
  Py.split_ws line !! 1 = None →
  parse_asm E asm_file = Raise IndexError.
Proof.
  intros Hopen Hwf Hsection Hname. unfold parse_asm, parse_asm_lines. rewrite Hopen.
  rewrite for_each_app, parse_asm_loop by done. cbn [bind for_each].
  unfold parse_asm_line, next_section, item. cbn [cur_section].
  by rewrite Hsection, Hname.
Qed.

Lemma parse_asm_missing_name_witness :
  parse_asm
    (Run.reads [".data" +:+ nl; "glabel foo" +:+ nl; ".word 1" +:+ nl]) "foo.s"
  = Exit ("Missing function name in assembly file! "
          +:+ "The file should start with 'glabel function_name'.").
Proof.
  eapply parse_asm_missing_name.
  - reflexivity.
  - repeat (apply Forall_cons; split; [vm_compute; intros H; first [discriminate H | by eexists]|]).
    apply Forall_nil. done.
  - assert (text_lines ".text" [".data" +:+ nl; "glabel foo" +:+ nl; ".word 1" +:+ nl] = [])
      as -> by (vm_compute; reflexivity).
    constructor.
Defined.

Lemma parse_asm_bad_name_witness :
  parse_asm
    (Run.reads ["glabel foo.part.0" +:+ nl; "  jr $ra" +:+ nl]) "foo.s"
  = Exit "Bad function name: foo.part.0".
Proof.
  eapply (parse_asm_bad_name _ _ _ [] ("glabel foo.part.0" +:+ nl) ["  jr $ra" +:+ nl]).
  - reflexivity.
  - repeat (apply Forall_cons; split; [vm_compute; intros H; first [discriminate H | by eexists]|]).
    apply Forall_nil. done.
  - vm_compute. reflexivity.
  - constructor.
  - vm_compute. reflexivity.
  - vm_compute. reflexivity.
  - vm_compute. reflexivity.
Defined.

Lemma parse_asm_section_without_name_witness :
  parse_asm
    (Run.reads ["glabel foo" +:+ nl; ".section" +:+ nl; ".word 1" +:+ nl]) "foo.s"
  = Raise IndexError.
Proof.
  eapply (parse_asm_section_without_name _ _ ["glabel foo" +:+ nl] (".section" +:+ nl)
            [".word 1" +:+ nl]).
  - reflexivity.
  - repeat (apply Forall_cons; split; [vm_compute; intros H; first [discriminate H | by eexists]|]).
    apply Forall_nil. done.
  - vm_compute. reflexivity.
  - vm_compute. reflexivity.
Defined.

(** ** What [find_build_command_line] returns *)

Lemma find_makefile_dir_has_makefile E filename dirname :
  find_makefile_dir E filename = Ret dirname → has_makefile E dirname = true.
Proof.
  unfold find_makefile_dir. intros H.
  destruct (find_makefile_loop_nearest E
              (S (String.length (PosixPath.abspath (getcwd E) (PosixPath.dirname filename))))
              filename None
              (PosixPath.abspath (getcwd E) (PosixPath.dirname filename)))
    as [(k & Hret & Hk & _)|Hexit]; [lia| |congruence].
  rewrite Hret in H. by injection H as <-.
Qed.

(** X7.  What [find_build_command_line] returns comes from one run of
    [make --always-make --dry-run --debug=j] with the flags, in the
    returned directory, which holds a makefile: the command and the
    assembler are the choice of [select_build_command] among the lines
    of its output. *)
Theorem find_build_command_line_returns E c_file make_flags cmdline asm makefile_dir :
  find_build_command_line E c_file make_flags = Ret (cmdline, asm, makefile_dir) →
  has_makefile E makefile_dir = true
  ∧ ∃ rel_c_file out,
      PosixPath.relpath (getcwd E) c_file makefile_dir = Some rel_c_file
      ∧ check_output E (["make"; "--always-make"; "--dry-run"; "--debug=j"] ++ make_flags)
          makefile_dir None = Some out
      ∧ select_build_command E rel_c_file make_flags (Py.split "010" out)
        = Ret (cmdline, asm).
Proof.
  unfold find_build_command_line.
  destruct (find_makefile_dir E _) as [dir| | |] eqn:Hdir; [|done..]. cbn [bind].
  destruct (PosixPath.relpath _ _ _) as [rel|] eqn:Hrel; [|done]. cbn [bind].
  destruct (check_output E _ _ _) as [out|] eqn:Hout; [|done]. cbn [bind].
  destruct (select_build_command E rel make_flags _) as [[c a]| | |] eqn:Hsel; [|done..].
  cbn [bind fst snd]. intros [= <- <- <-].
  split; [by eapply find_makefile_dir_has_makefile|]. by exists rel, out.
Qed.

Lemma find_build_command_line_returns_witness :
  has_makefile Run.E "/proj" = true.
Proof.
  eapply (find_build_command_line_returns Run.E "src/foo.c" ["PERMUTER=1"]).
  vm_compute. reflexivity.
Defined.

(** ** How [import_c_file] fails *)

Section ImportFailure.
Implicit Types (st : recover_state) (line : string) (ls : list string).

Lemma recover_line_outcome st line :
  (∃ st', recover_line st line = Ret st')
  ∨ recover_line st line = Raise ValueError
  ∨ recover_line st line = Raise IndexError.
Proof.
  unfold recover_line. destruct (Py.startswith line _); [|left; by eexists].
  destruct (Py.split_once _ _) as [[before after]|]; [|by right; left].
  unfold item. destruct (Py.split_ws before !! 2); [left; by eexists|by right; right].
Qed.

Lemma recover_loop_outcome st ls :
  (∃ st', for_each recover_line st ls = Ret st')
  ∨ for_each recover_line st ls = Raise ValueError
  ∨ for_each recover_line st ls = Raise IndexError.
Proof.
  revert st. induction ls as [|line ls IH]; intros st; [left; by eexists|].
  cbn [for_each].
  destruct (recover_line_outcome st line) as [[st1 ->]|[->| ->]];
    [apply IH|by right; left|by right; right].
Qed.

Lemma emit_late_defines_outcome source :
  (∃ text, emit_late_defines source = Ret text)
  ∨ emit_late_defines source = Raise ValueError
  ∨ emit_late_defines source = Raise IndexError.
Proof.
  unfold emit_late_defines.
  destruct (recover_loop_outcome {| late_defines := []; lines := []; graph := [] |}
              (Py.splitlines source)) as [[st ->]|[->| ->]];
    [|by right; left|by right; right].
  cbn [bind]. destruct (find_used_anywhere_reachable (graph st)) as (used & -> & _).
  left. by eexists.
Qed.

End ImportFailure.

(** X16.  [import_c_file] lets no CalledProcessError escape and stays
    within its budget; when it exits, a run of the preprocessor has
    failed, and the diagnostic is "Failed to preprocess input file, when
    running command:" followed by that command. *)
Theorem import_c_file_failure E compiler cwd in_file preserve_macros :
  (∀ cmd, import_c_file E compiler cwd in_file preserve_macros
          ≠ Raise (CalledProcessError cmd))
  ∧ (∀ msg, import_c_file E compiler cwd in_file preserve_macros = Exit msg →
       ∃ cmd input,
         check_output E cmd cwd input = None
         ∧ msg = "Failed to preprocess input file, when running command:" +:+ nl
                 +:+ formatcmd E cmd)
  ∧ import_c_file E compiler cwd in_file preserve_macros ≠ OutOfFuel.
Proof.
  unfold import_c_file.
  destruct (PosixPath.relpath _ _ _) as [rel|]; cbn [bind]; [|done].
  set (cpp_command := CPP ++ _).
  assert (∀ cmd input,
            (∃ text, run E cmd cwd input = Ret text)
            ∨ (run E cmd cwd input = Raise (CalledProcessError cmd)
               ∧ check_output E cmd cwd input = None)) as Hrun.
  { intros cmd input. unfold run. destruct (check_output E cmd cwd input) eqn:H.
    - left. by eexists.
    - by right. }
  destruct preserve_macros.
  - unfold preprocess_c_with_macros.
    destruct (Hrun (cpp_command ++ ["-dD"; "-fdirectives-only"]) None)
      as [[source ->]|[-> H1]]; cbn [bind].
    2:{ split_and!; [done| |done]. intros msg [= <-]. by eexists _, _. }
    destruct (Hrun (CPP ++ STUB_FN_MACROS) (Some (hide_macros source)))
      as [[out2 ->]|[-> H2]]; cbn [bind].
    2:{ split_and!; [done| |done]. intros msg [= <-]. by eexists _, _. }
    destruct (emit_late_defines_outcome out2) as [[text ->]|[->| ->]]; done.
  - destruct (Hrun (cpp_command ++ STUB_FN_MACROS) None) as [[source ->]|[-> H1]].
    + done.
    + split_and!; [done| |done]. intros msg [= <-]. by eexists _, _.
Qed.

Lemma import_c_file_failure_witness :
  ∃ cmd input,
    check_output (Sample.make_env "/proj" [] (Sample.make_prints "")) cmd "/proj" input
    = None
    ∧ "Failed to preprocess input file, when running command:" +:+ nl
      +:+ "cpp -P -undef src/foo.c -D__sgi -D_LANGUAGE_C -DNON_MATCHING -Iinclude "
      +:+ "-D_Static_assert(x, y)= -D__attribute__(x)= -DGLOBAL_ASM(...)="
      = "Failed to preprocess input file, when running command:" +:+ nl
        +:+ formatcmd (Sample.make_env "/proj" [] (Sample.make_prints "")) cmd.
Proof.
  apply (import_c_file_failure (Sample.make_env "/proj" [] (Sample.make_prints ""))
           ["cc"; "-c"; "-Iinclude"; "-O2"] "/proj" "src/foo.c" false).
  vm_compute. reflexivity.
Defined.

(** ** Further properties of the scan of the trace *)

Section ScanMore.
Context (E : env) (rel : string).
Implicit Types (st : scan_state) (line : string) (trace : list string).

Lemma scan_line_close st st' line :
  scan_line E rel st line = Ret st' →
  close_match st' = close_match st || mentions rel line.
Proof.
  unfold scan_line, mentions.
  destruct (normalize_line_total line) as [nline ->]. cbn [bind].
  destruct (Py.contains rel nline); cbn [negb].
  2:{ intros [= <-]. by rewrite orb_false_r. }
  rewrite orb_true_r.
  destruct (shlex_split E nline) as [parts|]; [|done].
  repeat (match goal with |- context [Py.mem ?x ?l] => destruct (Py.mem x l) end;
          cbn [negb]; try by intros [= <-]).
  destruct (fixup_build_command parts rel). by intros [= <-].
Qed.

Lemma scan_trace_close st st' trace :
  for_each (scan_line E rel) st trace = Ret st' →
  close_match st' = close_match st || existsb (mentions rel) trace.
Proof.
  revert st. induction trace as [|line trace IH]; intros st; cbn [for_each existsb].
  - intros [= <-]. by rewrite orb_false_r.
  - destruct (scan_line E rel st line) as [st1| | |] eqn:H1; try done. cbn [bind].
    intros ->%IH. apply scan_line_close in H1 as ->. by rewrite orb_assoc.
Qed.

End ScanMore.

(** X11.  When [shlex.split] accepts the lines that the loop comes to
    split and no line of the trace is kept, the run exits with the
    "Failed to find compile command" diagnostic, which names the flags
    and the path; the hint about a possible candidate follows exactly
    when the normalised text of some line contains the path. *)
Theorem select_build_command_not_found E rel make_flags trace :
  Forall (tokenizes E rel) trace →
  omap (candidate E rel) trace = [] →
  select_build_command E rel make_flags trace
  = Exit ("Failed to find compile command from makefile output. "
          +:+ "Please ensure 'make -Bn --debug=j " +:+ formatcmd E make_flags +:+ "' "
          +:+ "contains a line with the string '" +:+ rel +:+ "'."
          +:+ (if existsb (mentions rel) trace
               then nl +:+ "(Found one possible candidate, but didn't match due to "
                    +:+ "either spaces in paths, having -fsyntax-only, or missing an -o flag.)"
               else "")).
Proof.
  intros Htok Hnone. unfold select_build_command.
  destruct (scan_trace E rel {| output := []; close_match := false;
                                assembler := DEFAULT_AS_CMDLINE |} trace Htok)
    as (st & Hst & Hout & _).
  rewrite Hst. cbn [bind]. apply scan_trace_close in Hst. cbn in Hst, Hout.
  rewrite Hnone in Hout. cbn in Hout. by rewrite Hout, Hst.
Qed.

(** X12.  The first line whose normalised text contains the path and
    that [shlex.split] rejects ends the scan with an uncaught
    ValueError, whatever the lines after it hold. *)
Theorem select_build_command_unsplittable E rel make_flags before line after nline :
  Forall (tokenizes E rel) before →
  normalize_line line = Ret nline →
  Py.contains rel nline = true →
  shlex_split E nline = None →
  select_build_command E rel make_flags (before ++ line :: after) = Raise ValueError.
Proof.
  intros Htok Hn Hc Hsplit. unfold select_build_command.
  rewrite for_each_app.
  destruct (scan_trace_total E rel {| output := []; close_match := false;
                                      assembler := DEFAULT_AS_CMDLINE |} before Htok)
    as [st ->].
  cbn [bind for_each]. unfold scan_line. rewrite Hn. cbn [bind]. by rewrite Hc, Hsplit.
Qed.

(** ** The wrapper pattern, conversely *)

Section Unwrap.
Implicit Types (res pre mid asm post : list string) (t w : string).

Lemma first_index_inv P res i :
  Py.first_index P res = Some i →
  ∃ w, res = take i res ++ w :: drop (S i) res
    ∧ Forall (λ t, P t = false) (take i res) ∧ P w = true ∧ length (take i res) = i.
Proof.
  unfold Py.first_index. destruct (list_find _ res) as [[j w]|] eqn:Hfind; [|done].
  intros [= <-]. apply list_find_Some in Hfind as (Hw & HP & Hbefore).
  exists w. split_and!; [|  |done|].
  - by rewrite take_drop_middle.
  - apply Forall_forall. intros t [k Hk]%list_elem_of_lookup_1.
    apply lookup_take_Some in Hk as [Hk Hlt].
    specialize (Hbefore k t Hk Hlt). by destruct (P t).
  - apply length_take_le. apply lookup_lt_Some in Hw. lia.
Qed.

Lemma index_inv res t start i :
  Py.index res t start = Some i →
  ∃ mid, drop start res = mid ++ t :: drop (S i) res
    ∧ (t ∉ mid) ∧ i = start + length mid ∧ mid = Py.slice res start i.
Proof.
  unfold Py.index. destruct (list_find _ (drop start res)) as [[p x]|] eqn:Hfind; [|done].
  intros [= <-]. apply list_find_Some in Hfind as (Hx & -> & Hbefore).
  exists (take p (drop start res)).
  assert (length (take p (drop start res)) = p) as Hlen.
  { apply length_take_le. apply lookup_lt_Some in Hx. lia. }
  split_and!.
  - rewrite <- (take_drop_middle _ _ _ Hx) at 1. f_equal. f_equal.
    rewrite drop_drop. f_equal. cbn. lia.
  - intros [k Hk]%list_elem_of_lookup_1. apply lookup_take_Some in Hk as [Hk Hlt].
    by apply (Hbefore k t Hk Hlt).
  - cbn. by rewrite Hlen.
  - unfold Py.slice. cbn. f_equal. lia.
Qed.

Lemma unwrap_inv res res' asm :
  unwrap_asm_processor res = Some (res', asm) →
  ∃ pre w mid post, wrapped res pre w mid asm post ∧ res' = mid ++ post.
Proof.
  unfold unwrap_asm_processor.
  destruct (Py.first_index references_wrapper res) as [ind0|] eqn:H0; [|done].
  cbn [mbind option_bind].
  destruct (Py.index res "--" (ind0 + 1)) as [ind1|] eqn:H1; [|done].
  cbn [mbind option_bind].
  destruct (Py.index res "--" (ind1 + 1)) as [ind2|] eqn:H2; [|done].
  cbn [mbind option_bind]. intros [= <- <-].
  apply first_index_inv in H0 as (w & Hres & Hpre & Hw & Hlen).
  apply index_inv in H1 as (mid & Hmid & Hnmid & -> & Hmid').
  apply index_inv in H2 as (asm & Hasm & Hnasm & -> & Hasm').
  exists (take ind0 res), w, mid, (drop (S (ind0 + 1 + length mid + 1 + length asm)) res).
  rewrite <- Hmid', <- Hasm'. split; [|f_equal; f_equal; lia].
  split_and!; [|done..].
  rewrite Hres at 1. f_equal. f_equal.
  replace (S ind0) with (ind0 + 1) by lia. rewrite Hmid. f_equal. f_equal.
  replace (S (ind0 + 1 + length mid)) with (ind0 + 1 + length mid + 1) by lia.
  by rewrite Hasm.
Qed.

End Unwrap.

(** X13.  [fixup_build_command] reports an assembler exactly when the
    list left by the first loop has the whole wrapper pattern: a first
    token that refers to the wrapper, then two separators; the assembler
    is the segment between the separators, which holds no separator,
    and the command is what stands between the wrapper and the first
    separator followed by what stands after the second. *)
Theorem fixup_reports_assembler_iff parts ign res' asm :
  fixup_build_command parts ign = (res', Some asm)
  ↔ ∃ pre w mid post,
      wrapped (strip_parts ign 0 parts) pre w mid asm post ∧ res' = mid ++ post.
Proof.
  split.
  - unfold fixup_build_command.
    destruct (unwrap_asm_processor _) as [[r a]|] eqn:Hu; [|done].
    intros [= <- <-]. by apply unwrap_inv.
  - intros (pre & w & mid & post & Hw & ->). unfold fixup_build_command.
    by rewrite (unwrap_wrapped _ _ _ _ _ _ Hw).
Qed.

(** ** The preprocessor flags of [import_c_file] *)

Section CppFlags.
Implicit Types (compiler pre post : list string) (arg t f : string).

Lemma takes_operand_flag arg : takes_operand arg = true → is_cpp_flag arg = true.
Proof.
  unfold takes_operand, Py.mem. intros H%bool_decide_eq_true.
  repeat (apply elem_of_cons in H as [->|H]; [done|]). by apply elem_of_nil in H.
Qed.

Lemma cpp_flags_cons_0 arg compiler :
  cpp_flags 0 (arg :: compiler)
  = if takes_operand arg then arg :: cpp_flags 1 compiler
    else if is_cpp_flag arg then arg :: cpp_flags 0 compiler
    else cpp_flags 0 compiler.
Proof. reflexivity. Qed.

Lemma cpp_flags_sublist n compiler : cpp_flags n compiler `sublist_of` compiler.
Proof.
  revert n. induction compiler as [|arg compiler IH]; intros n; [done|].
  destruct n as [|n]; [|by apply sublist_skip].
  rewrite cpp_flags_cons_0. destruct (takes_operand arg); [by apply sublist_skip|].
  destruct (is_cpp_flag arg); [by apply sublist_skip|by apply sublist_cons].
Qed.

Lemma cpp_flags_complete n compiler t :
  t ∈ compiler → is_cpp_flag t = true → t ∈ cpp_flags n compiler.
Proof.
  revert n. induction compiler as [|arg compiler IH]; intros n Hin Ht.
  { by apply elem_of_nil in Hin. }
  destruct n as [|n].
  - rewrite cpp_flags_cons_0. apply elem_of_cons in Hin as [->|Hin].
    + rewrite Ht. destruct (takes_operand arg); by left.
    + destruct (takes_operand arg); [right; by apply IH|].
      destruct (is_cpp_flag arg); [right|]; by apply IH.
  - cbn [cpp_flags]. apply elem_of_cons in Hin as [->|Hin]; [by left|right; by apply IH].
Qed.

Lemma cpp_flags_sound n compiler t :
  t ∈ cpp_flags n compiler →
  is_cpp_flag t = true
  ∨ (∃ pre f post, compiler = pre ++ f :: t :: post ∧ takes_operand f = true)
  ∨ (0 < n ∧ t ∈ take n compiler).
Proof.
  revert n. induction compiler as [|arg compiler IH]; intros n.
  { intros H. by apply elem_of_nil in H. }
  assert (∀ m, t ∈ cpp_flags m compiler →
            is_cpp_flag t = true
            ∨ (∃ pre f post, arg :: compiler = pre ++ f :: t :: post ∧ takes_operand f = true)
            ∨ (0 < m ∧ t ∈ take m compiler)) as IH'.
  { intros m [?|[(pre & f & post & -> & Hf)|?]]%IH; [by left| |by right; right].
    right. left. by exists (arg :: pre), f, post. }
  destruct n as [|n].
  - rewrite cpp_flags_cons_0. destruct (takes_operand arg) eqn:Hop.
    + intros [->|Hin]%elem_of_cons; [left; by apply takes_operand_flag|].
      apply IH' in Hin as [?|[?|[_ Hin]]]; [by left|by right; left|].
      destruct compiler as [|t' compiler]; [by apply elem_of_nil in Hin|].
      cbn in Hin. apply list_elem_of_singleton in Hin as ->.
      right. left. by exists [], arg, compiler.
    + destruct (is_cpp_flag arg) eqn:Hflag.
      * intros [->|Hin]%elem_of_cons; [by left|].
        apply IH' in Hin as [?|[?|[? _]]]; [by left|by right; left|lia].
      * intros Hin. apply IH' in Hin as [?|[?|[? _]]]; [by left|by right; left|lia].
  - cbn [cpp_flags take]. intros [->|Hin]%elem_of_cons.
    + right. right. split; [lia|by left].
    + apply IH' in Hin as [?|[?|[? Hin]]]; [by left|by right; left|].
      right. right. split; [lia|by right].
Qed.

Lemma cpp_flags_idem n compiler :
  cpp_flags n (cpp_flags n compiler) = cpp_flags n compiler.
Proof.
  revert n. induction compiler as [|arg compiler IH]; intros n; [by destruct n|].
  destruct n as [|n]; [|cbn [cpp_flags]; by rewrite IH].
  rewrite cpp_flags_cons_0. destruct (takes_operand arg) eqn:Hop.
  - rewrite cpp_flags_cons_0, Hop. by rewrite IH.
  - destruct (is_cpp_flag arg) eqn:Hflag; [|done].
    rewrite cpp_flags_cons_0, Hop, Hflag. by rewrite IH.
Qed.

End CppFlags.

(** X14.  The arguments of the compiler that [import_c_file] hands to
    the preprocessor are a subsequence of the compiler's arguments; they
    hold every argument that starts with [-D], [-U] or [-I] or is
    [-nostdinc]; and each of them is such an argument or stands right
    after a bare [-D], [-U] or [-I]. *)
Theorem cpp_flags_selects compiler :
  cpp_flags 0 compiler `sublist_of` compiler
  ∧ (∀ t, t ∈ compiler → is_cpp_flag t = true → t ∈ cpp_flags 0 compiler)
  ∧ (∀ t, t ∈ cpp_flags 0 compiler →
       is_cpp_flag t = true
       ∨ ∃ pre f post, compiler = pre ++ f :: t :: post ∧ takes_operand f = true).
Proof.
  split_and!.
  - apply cpp_flags_sublist.
  - intros t. apply cpp_flags_complete.
  - intros t [?|[?|[? _]]]%cpp_flags_sound; [by left|by right|lia].
Qed.

(** X15.  Selecting the preprocessor flags of a list of selected flags
    changes nothing. *)
Theorem cpp_flags_idempotent compiler :
  cpp_flags 0 (cpp_flags 0 compiler) = cpp_flags 0 compiler.
Proof. apply cpp_flags_idem. Qed.

(** ** Further properties of the recovery of the definitions *)

Section RecoverMore.
Implicit Types (st : recover_state) (line : string) (ls : list string).

Lemma recover_line_plain st line :
  Py.startswith line "_permuter define " = false →
  ∃ st', recover_line st line = Ret st'.
Proof. intros H. unfold recover_line. rewrite H. by eexists. Qed.

Lemma recover_loop_plain st ls :
  Forall (λ line, Py.startswith line "_permuter define " = false) ls →
  ∃ st', for_each recover_line st ls = Ret st'.
Proof.
  intros Hls. revert st. induction Hls as [|line ls Hl _ IH]; intros st; [by eexists|].
  cbn [for_each]. destruct (recover_line_plain st line Hl) as [st1 ->]. apply IH.
Qed.

Lemma late_define_of_plain line :
  Py.startswith line "_permuter define " = false → late_define_of line = None.
Proof. intros H. unfold late_define_of. by rewrite H. Qed.

Lemma split_once_lacks sep s : lacks sep s = true → Py.split_once sep s = None.
Proof.
  induction s as [|c s IH]; [done|]. cbn [lacks Py.split_once].
  intros [Hc%negb_true_iff Hs]%andb_true_iff. by rewrite Hc, IH.
Qed.

Lemma recover_plain_late_defines ls :
  Forall (λ line, Py.startswith line "_permuter define " = false) ls →
  omap late_define_of ls = []
  ∧ filter (λ line, Py.startswith line "_permuter define " = false) ls = ls.
Proof.
  induction 1 as [|line ls Hline _ [IH1 IH2]]; [done|].
  cbn [omap list_omap]. rewrite late_define_of_plain by done.
  rewrite filter_cons, decide_True by done. by rewrite IH2.
Qed.

End RecoverMore.

(** X17.  When no line of the second pass starts with the sentinel,
    the returned text is the start marker, the end marker, the lines of
    the second pass, and a final line feed. *)
Theorem emit_late_defines_without_definitions out2 :
  Forall (λ line, Py.startswith line "_permuter define " = false) (Py.splitlines out2) →
  emit_late_defines out2
  = Ret (Py.join nl (["#pragma _permuter latedefine start";
                      "#pragma _permuter latedefine end"]
                     ++ Py.splitlines out2 ++ [""])).
Proof.
  intros Hplain. unfold emit_late_defines.
  destruct (recover_loop_plain {| late_defines := []; lines := []; graph := [] |} _ Hplain)
    as [st Hst].
  rewrite Hst. cbn [bind]. apply recover_loop_ret in Hst as (Hd & Hl & _).
  destruct (find_used_anywhere_reachable (graph st)) as (used & -> & _). cbn [bind].
  unfold emit_lines. rewrite Hd, Hl. cbn [late_defines lines app].
  destruct (recover_plain_late_defines _ Hplain) as [-> ->].
  by rewrite filter_nil.
Qed.

(** X18.  When the first line of the second pass that starts with the
    sentinel holds no opening parenthesis, the recovery ends with an
    uncaught ValueError. *)
Theorem emit_late_defines_without_parenthesis out2 before line after :
  Py.splitlines out2 = before ++ line :: after →
  Forall (λ l, Py.startswith l "_permuter define " = false) before →
  Py.startswith line "_permuter define " = true →
  lacks "(" line = true →
  emit_late_defines out2 = Raise ValueError.
Proof.
  intros Hlines Hbefore Hline Hparen. unfold emit_late_defines.
  rewrite Hlines, for_each_app.
  destruct (recover_loop_plain {| late_defines := []; lines := []; graph := [] |} _ Hbefore)
    as [st ->].
  cbn [bind for_each]. unfold recover_line.
  by rewrite Hline, split_once_lacks.
Qed.

(** ** Texts without definitions to hide *)

Lemma join_split s : Py.join nl (Py.split "010" s) = s.
Proof.
  induction s as [|c s IH]; [done|]. cbn [Py.split].
  destruct (split_cons "010" s) as (l & ls & Hs). rewrite Hs in *.
  case_bool_decide as Hc.
  - subst c. change (Py.join nl ("" :: l :: ls)) with ("" +:+ nl +:+ Py.join nl (l :: ls)).
    by rewrite IH.
  - rewrite <- IH. destruct ls as [|l' ls]; [done|].
    change (Py.join nl (String c l :: l' :: ls))
      with (String c l +:+ nl +:+ Py.join nl (l' :: ls)).
    change (Py.join nl (l :: l' :: ls)) with (l +:+ nl +:+ Py.join nl (l' :: ls)).
    by rewrite str_app_cons.
Qed.

Lemma drop_stdc_plain ls :
  Forall (λ l, Py.startswith l "#define __STDC_" = false) ls → drop_stdc ls = ls.
Proof.
  induction 1 as [|l ls Hl _ IH]; [done|]. cbn [drop_stdc].
  destruct ls as [|l' ls]; [done|]. by rewrite Hl, IH.
Qed.

(** X19.  A text in which no line defines a function-like macro and no
    line starts with [#define __STDC_] is handed to the second pass as it
    is. *)
Theorem hide_macros_plain source :
  Forall (λ line, define_match line = None
                  ∧ Py.startswith line "#define __STDC_" = false)
    (Py.split "010" source) →
  hide_macros source = source.
Proof.
  intros Hplain. unfold hide_macros, sub_stdc, sub_defines.
  assert (rewrite_define (find_expand_macros source) <$> Py.split "010" source
          = Py.split "010" source) as ->.
  { generalize (find_expand_macros source). intros expand.
    induction Hplain as [|l ls [Hl _] _ IH]; [done|].
    cbn [fmap list_fmap]. unfold rewrite_define at 1. rewrite Hl. by f_equal. }
  rewrite join_split, drop_stdc_plain, join_split; [done|].
  eapply Forall_impl; [exact Hplain|]. by intros l [_ ?].
Qed.

(** ** The normal form of a line of the trace *)

Section Normal.
Implicit Types (s r line : string) (c : ascii).

Lemma starts_sep s : Py.startswith s "/" = match s with String "/" _ => true | _ => false end.
Proof.
  destruct s as [|c s]; [done|]. cbn [Py.startswith].
  destruct (Ascii.ascii_dec c "/") as [->|Hc].
  - rewrite bool_decide_eq_true_2 by done. by destruct s.
  - rewrite bool_decide_eq_false_2 by (by intros <-).
    destruct c as [[] [] [] [] [] [] [] []]; done.
Qed.

Lemma contains_double_cons c s :
  Py.contains "//" (String c s)
  = bool_decide (c = "/"%char) && Py.startswith s "/" || Py.contains "//" s.
Proof.
  cbn [Py.contains Py.startswith]. f_equal.
  destruct (Ascii.ascii_dec c "/") as [->|Hc].
  - rewrite !bool_decide_eq_true_2 by done. cbn [andb]. destruct s as [|c' s]; [done|].
    cbn [Py.startswith]. by destruct s.
  - rewrite !bool_decide_eq_false_2; [done|done|by intros <-].
Qed.

(** One pass of the second replacement on a text without a doubled
    slash. *)
Lemma replace_dot_keeps n : ∀ s,
  String.length s ≤ n →
  Py.contains "//" s = false →
  Py.contains "//" (Py.replace "/./" "/" s) = false
  ∧ Py.startswith (Py.replace "/./" "/" s) "/" = Py.startswith s "/".
Proof.
  unfold Py.replace. induction n as [|n IH]; intros s Hn Hs.
  { destruct s; [done|]. cbn in Hn. lia. }
  destruct s as [|c s]; [done|]. cbn [Py.replace_go].
  destruct (Py.startswith (String c s) "/./") eqn:Hm.
  - apply startswith_inv in Hm as [r Hr].
    change ("/./" +:+ r) with (String "/" (String "." (String "/" r))) in Hr.
    injection Hr as -> ->. cbn [String.length Nat.sub Py.replace_go].
    rewrite !contains_double_cons in Hs.
    apply orb_false_iff in Hs as [_ [_ [Hsep Hr]%orb_false_iff]%orb_false_iff].
    rewrite bool_decide_eq_true_2 in Hsep by done. cbn [andb] in Hsep.
    destruct (IH r) as [IH1 IH2]; [cbn in Hn; lia|done|].
    change ("/" +:+ ?x) with (String "/" x). rewrite contains_double_cons.
    rewrite IH1, IH2, Hsep. split; [done|]. by rewrite !starts_sep.
  - rewrite contains_double_cons in Hs.
    apply orb_false_iff in Hs as [Hsep Hr].
    destruct (IH s) as [IH1 IH2]; [cbn in Hn; lia|done|].
    rewrite contains_double_cons, IH1, IH2, Hsep. split; [done|]. by rewrite !starts_sep.
Qed.

Lemma collapse_keeps (P : string → Prop) old new fuel line r :
  (∀ s, P s → P (Py.replace old new s)) →
  P line → collapse fuel old new line = Ret r → P r.
Proof.
  intros Hstep. revert line. induction fuel as [|fuel IH]; intros line Hline; [done|].
  cbn [collapse]. destruct (Py.contains old line); [|by intros [= <-]].
  apply IH. by apply Hstep.
Qed.

Lemma collapse_fixed old new fuel line :
  Py.contains old line = false → collapse (S fuel) old new line = Ret line.
Proof. intros H. cbn [collapse]. by rewrite H. Qed.

End Normal.

(** X20.  The two loops that normalise a line of the trace end within
    their budget; the result contains neither [//] nor [/./], and
    normalising it again gives it back. *)
Theorem normalize_line_normal line :
  ∃ r, normalize_line line = Ret r
    ∧ Py.contains "//" r = false ∧ Py.contains "/./" r = false
    ∧ normalize_line r = Ret r.
Proof.
  unfold normalize_line.
  destruct (collapse_total "//" "/" ltac:(simpl; lia) (S (String.length line)) line)
    as (r1 & -> & H1); [lia|]. cbn [bind].
  destruct (collapse_total "/./" "/" ltac:(simpl; lia) (S (String.length r1)) r1)
    as (r2 & Hr2 & H2); [lia|].
  exists r2. rewrite Hr2.
  assert (Py.contains "//" r2 = false) as H3.
  { eapply (collapse_keeps (λ s, Py.contains "//" s = false)); [|exact H1|exact Hr2].
    intros s Hs. by eapply replace_dot_keeps. }
  split_and!; [done..|].
  rewrite collapse_fixed by done. cbn [bind]. by rewrite collapse_fixed.
Qed.

Lemma select_build_command_not_found_witness :
  select_build_command (Sample.make_env "/proj" [] (Sample.make_prints ""))
    "src/foo.c" ["PERMUTER=1"]
    ["make: Entering directory '/proj'"; "cc -fsyntax-only src/foo.c -o /dev/null"]
  = Exit ("Failed to find compile command from makefile output. "
          +:+ "Please ensure 'make -Bn --debug=j PERMUTER=1' "
          +:+ "contains a line with the string 'src/foo.c'." +:+ nl
          +:+ "(Found one possible candidate, but didn't match due to "
          +:+ "either spaces in paths, having -fsyntax-only, or missing an -o flag.)").
Proof.
  etrans.
  - apply select_build_command_not_found; [apply plain_split_trace|].
    vm_compute. reflexivity.
  - vm_compute. reflexivity.
Defined.

Lemma select_build_command_unsplittable_witness :
  select_build_command Run.strict "src/foo.c" ["PERMUTER=1"]
    ["echo 'Compiling src/foo.c"; "cc -c src/foo.c -o build/foo.o"]
  = Raise ValueError.
Proof.
  apply (select_build_command_unsplittable Run.strict "src/foo.c" ["PERMUTER=1"] []
           "echo 'Compiling src/foo.c" ["cc -c src/foo.c -o build/foo.o"]
           "echo 'Compiling src/foo.c").
  - constructor.
  - vm_compute. reflexivity.
  - vm_compute. reflexivity.
  - vm_compute. reflexivity.
Defined.

Lemma emit_late_defines_without_definitions_witness :
  emit_late_defines ("int f(void) {" +:+ nl +:+ "  return g(1);" +:+ nl +:+ "}" +:+ nl)
  = Ret ("#pragma _permuter latedefine start" +:+ nl
         +:+ "#pragma _permuter latedefine end" +:+ nl
         +:+ "int f(void) {" +:+ nl +:+ "  return g(1);" +:+ nl +:+ "}" +:+ nl).
Proof.
  etrans.
  - apply emit_late_defines_without_definitions.
    assert (Py.splitlines
              ("int f(void) {" +:+ nl +:+ "  return g(1);" +:+ nl +:+ "}" +:+ nl)
            = ["int f(void) {"; "  return g(1);"; "}"])
      as -> by (vm_compute; reflexivity).
    repeat (apply Forall_cons; split; [vm_compute; reflexivity|]).
    apply Forall_nil. done.
  - vm_compute. reflexivity.
Defined.

Lemma emit_late_defines_without_parenthesis_witness :
  emit_late_defines ("int x;" +:+ nl +:+ "_permuter define ADD" +:+ nl +:+ "int y;" +:+ nl)
  = Raise ValueError.
Proof.
  apply (emit_late_defines_without_parenthesis _ ["int x;"] "_permuter define ADD" ["int y;"]).
  - vm_compute. reflexivity.
  - repeat constructor.
  - vm_compute. reflexivity.
  - vm_compute. reflexivity.
Defined.

Lemma hide_macros_plain_witness :
  hide_macros ("#define N 4" +:+ nl +:+ "int a[N];" +:+ nl +:+ "int f(void);" +:+ nl)
  = "#define N 4" +:+ nl +:+ "int a[N];" +:+ nl +:+ "int f(void);" +:+ nl.
Proof.
  apply hide_macros_plain.
  assert (Py.split "010"
            ("#define N 4" +:+ nl +:+ "int a[N];" +:+ nl +:+ "int f(void);" +:+ nl)
          = ["#define N 4"; "int a[N];"; "int f(void);"; ""])
    as -> by (vm_compute; reflexivity).
  repeat (apply Forall_cons; split; [split; vm_compute; reflexivity|]).
  apply Forall_nil. done.
Defined.

(** ** What [parse_asm] returns *)

Section ParseAsmReturns.
Implicit Types (st : asm_state) (line : string) (lines kept : list string).

Lemma parse_asm_line_ret st st' line :
  parse_asm_line st line = Ret st' →
  ∃ kept, asm_lines st' = asm_lines st ++ kept ∧ kept `sublist_of` [line]
    ∧ named_by (func_name st) (func_name st') kept.
Proof.
  unfold parse_asm_line. destruct (next_section _ line) as [cur| | |]; [|done..].
  cbn [bind]. case_bool_decide.
  - destruct (func_name st) as [n|] eqn:Hn; cbn [bind].
    + intros [= <-]. exists [line]. cbn. split_and!; [done|done|by left].
    + fold (is_glabel line). destruct (is_glabel line) eqn:Hg; cbn [bind].
      * unfold item. destruct (Py.split_ws line !! 1) as [name|] eqn:Hname; [|done].
        cbn [bind]. intros [= <-]. exists [line]. cbn. split_and!; [done|done|].
        right. split; [done|]. exists line. split_and!; [by left|done|done].
      * intros [= <-]. exists [line]. cbn. split_and!; [done|done|by left].
  - intros [= <-]. exists []. cbn. rewrite app_nil_r. split_and!; [done| |by left].
    apply sublist_nil_l.
Qed.

Lemma parse_asm_loop_ret st st' lines :
  for_each parse_asm_line st lines = Ret st' →
  ∃ kept, asm_lines st' = asm_lines st ++ kept ∧ kept `sublist_of` lines
    ∧ named_by (func_name st) (func_name st') kept.
Proof.
  revert st. induction lines as [|line lines IH]; intros st; cbn [for_each].
  - intros [= <-]. exists []. rewrite app_nil_r. split_and!; [done|done|by left].
  - destruct (parse_asm_line st line) as [st1| | |] eqn:H1; [|done..]. cbn [bind].
    intros (kept2 & Hl2 & Hs2 & Hn2)%IH.
    apply parse_asm_line_ret in H1 as (kept1 & Hl1 & Hs1 & Hn1).
    exists (kept1 ++ kept2). split_and!.
    + by rewrite Hl2, Hl1, app_assoc.
    + by apply (sublist_app kept1 [line] kept2 lines).
    + destruct Hn1 as [Hn1|(Hb & l & Hl & Hg & Hname)].
      * rewrite Hn1 in Hn2. destruct Hn2 as [Hn2|(Hb & l & Hl & Hg & Hname)]; [by left|].
        right. split; [done|]. exists l. split_and!; [|done|done].
        apply elem_of_app. by right.
      * destruct Hn2 as [Hn2|(Hb2 & _)].
        -- right. split; [done|]. exists l. rewrite Hn2. split_and!; [|done|done].
           apply elem_of_app. by left.
        -- rewrite Hb2 in Hname. destruct (glabel_has_name l Hg) as [n Hn]. congruence.
Qed.

End ParseAsmReturns.

(** X21.  Whenever [parse_asm] returns, the name is made of the
    characters [[A-Za-z0-9_$]] and is the second field of a line that
    starts (up to blanks) with [glabel ], and the text is the
    concatenation of lines of the file, in their order, among which is
    that line. *)
Theorem parse_asm_returns E asm_file name text :
  parse_asm E asm_file = Ret (name, text) →
  valid_func_name name = true
  ∧ ∃ lines kept line,
      open_lines E asm_file = inr lines
      ∧ kept `sublist_of` lines
      ∧ text = Py.join "" kept
      ∧ line ∈ kept ∧ is_glabel line = true ∧ Py.split_ws line !! 1 = Some name.
Proof.
  intros Hret. split; [by eapply parse_asm_valid|]. revert Hret.
  unfold parse_asm, parse_asm_lines. destruct (open_lines E asm_file) as [e|lines]; [done|].
  destruct (for_each _ _ lines) as [st| | |] eqn:Hloop; [|done..]. cbn [bind].
  apply parse_asm_loop_ret in Hloop as (kept & Hl & Hs & Hn). cbn in Hl, Hn.
  destruct (func_name st) as [name'|]; [|done].
  destruct (valid_func_name name'); [|done]. intros [= <- <-].
  destruct Hn as [?|(_ & line & Hline & Hg & Hname)]; [done|].
  exists lines, kept, line. by rewrite Hl.
Qed.

Lemma parse_asm_returns_witness :
  valid_func_name "foo" = true
  ∧ ∃ lines kept line,
      open_lines (Run.reads ["glabel foo" +:+ nl; "  jr $ra" +:+ nl; ".data" +:+ nl])
        "foo.s" = inr lines
      ∧ kept `sublist_of` lines
      ∧ "glabel foo" +:+ nl +:+ "  jr $ra" +:+ nl = Py.join "" kept
      ∧ line ∈ kept ∧ is_glabel line = true ∧ Py.split_ws line !! 1 = Some "foo".
Proof.
  apply (parse_asm_returns (Run.reads ["glabel foo" +:+ nl; "  jr $ra" +:+ nl; ".data" +:+ nl])
           "foo.s" "foo" ("glabel foo" +:+ nl +:+ "  jr $ra" +:+ nl)).
  vm_compute. reflexivity.
Defined.
